(** * Capability board: state store and view renderer of [static/app.js]

    A shallow embedding of the two modules of [src/static/app.js]:
    [AppState] (the snapshot of capabilities and the three network
    operations) and [UI] (the four page anchors, the two render entry
    points and the transient message area), followed by the properties
    of the state/render contract.

    Conventions of the embedding.
    - JavaScript strings are [string]s (byte sequences, UTF-8).
    - Objects live in a [heap] of cells addressed by [loc]: a snapshot
      is a cell mapping capability names to the locations of capability
      objects, so that "the same object as before" is equality of
      locations together with an untouched cell.
    - A method is a state transformer over [World] that completes
      normally or throws ([M]); [try_catch] is the source's try/catch.
    - An awaited network exchange is an input of the method that awaits
      it ([Http]).  A method is run as one step: it touches the state
      only after its last await, so the world it is given is the one
      found when the response arrives, and no other handler is
      interleaved.
    - Time is a clock in milliseconds with the queue of pending hide
      timers; [run_until] lets it pass.
    - Markup assigned through [innerHTML] is kept as the exact string
      the template literal produces; [HTML.parse_fragment] interprets it. *)

From Stdlib Require Import ZArith NArith Ascii String List Lia.
From stdpp Require Import base tactics option list strings pretty.

Set Warnings "-register-all".

Open Scope string_scope.
Open Scope list_scope.

(** ** Characters and strings *)

(** The double quote, written by its code so that the templates below
    can be spelt piece by piece. *)
Definition dq : string := String "034"%char EmptyString.

(** [Array.prototype.join]: the items separated by [sep]. *)
Fixpoint join (sep : string) (l : list string) : string :=
  match l with
  | [] => ""
  | [x] => x
  | x :: rest => x +:+ sep +:+ join sep rest
  end.

(** ** The HTML fragment parser behind [innerHTML]

    The tokenizer follows the states of the HTML standard that the
    markup of this page can reach (data, tag open, end tag open, tag
    name, the attribute states, self-closing start tag).  Constructs it
    does not cover (character references, comments and declarations,
    NUL and CR, elements whose content model moves the tokenizer or the
    tree builder to another mode) make the parser answer [None]: the
    model is partial, never approximate. *)
Module HTML.

Definition is_space (c : ascii) : bool :=
  (c =? "009")%char || (c =? "010")%char || (c =? "012")%char || (c =? " ")%char.

Definition is_upper (c : ascii) : bool :=
  (65 <=? N_of_ascii c)%N && (N_of_ascii c <=? 90)%N.

Definition is_alpha (c : ascii) : bool :=
  is_upper c || ((97 <=? N_of_ascii c)%N && (N_of_ascii c <=? 122)%N).

Definition lower (c : ascii) : ascii :=
  if is_upper c then ascii_of_N (N_of_ascii c + 32) else c.

(** Characters the model does not interpret anywhere. *)
Definition is_unmodelled (c : ascii) : bool :=
  (c =? "000")%char || (c =? "013")%char.

Definition snoc (s : string) (c : ascii) : string := s +:+ String c "".

Definition attrs := list (string * string).

Fixpoint get_attr (n : string) (a : attrs) : option string :=
  match a with
  | [] => None
  | (k, v) :: rest => if String.eqb k n then Some v else get_attr n rest
  end.

(** A repeated attribute name is a parse error and the later one is dropped. *)
Definition add_attr (a : attrs) (n v : string) : attrs :=
  match get_attr n a with
  | Some _ => a
  | None => a ++ [(n, v)]
  end.

Record tag := Tag {
  tag_end : bool;
  tag_name : string;
  tag_attrs : attrs;
  tag_self_closing : bool
}.

Definition tag_snoc (t : tag) (c : ascii) : tag :=
  Tag (tag_end t) (snoc (tag_name t) c) (tag_attrs t) (tag_self_closing t).

Definition tag_add (t : tag) (n v : string) : tag :=
  Tag (tag_end t) (tag_name t) (add_attr (tag_attrs t) n v) (tag_self_closing t).

Definition tag_close (t : tag) : tag :=
  Tag (tag_end t) (tag_name t) (tag_attrs t) true.

Inductive token :=
| TChar (c : ascii)
| TTag (t : tag).

Inductive mode :=
| Data
| TagOpen
| EndTagOpen
| TagName (t : tag)
| BeforeAttrName (t : tag)
| AttrName (t : tag) (n : string)
| AfterAttrName (t : tag) (n : string)
| BeforeAttrValue (t : tag) (n : string)
| AttrValueDQ (t : tag) (n v : string)
| AttrValueSQ (t : tag) (n v : string)
| AttrValueUnq (t : tag) (n v : string)
| AfterAttrValueQ (t : tag)
| SelfClosing (t : tag)
| Unsupported.

(** Each state consumes one character and yields the next state and the
    tokens emitted; "reconsume in state X" is a call of X's function. *)

Definition data (c : ascii) : mode * list token :=
  if (c =? "&")%char then (Unsupported, [])
  else if (c =? "<")%char then (TagOpen, [])
  else (Data, [TChar c]).

Definition tag_name_state (t : tag) (c : ascii) : mode * list token :=
  if is_space c then (BeforeAttrName t, [])
  else if (c =? "/")%char then (SelfClosing t, [])
  else if (c =? ">")%char then (Data, [TTag t])
  else (TagName (tag_snoc t (lower c)), []).

Definition tag_open (c : ascii) : mode * list token :=
  if (c =? "!")%char || (c =? "?")%char then (Unsupported, [])
  else if (c =? "/")%char then (EndTagOpen, [])
  else if is_alpha c then tag_name_state (Tag false "" [] false) c
  else let '(m, out) := data c in (m, TChar "<" :: out).

Definition end_tag_open (c : ascii) : mode * list token :=
  if is_alpha c then tag_name_state (Tag true "" [] false) c
  else if (c =? ">")%char then (Data, [])
  else (Unsupported, []).

Definition after_attr_name (t : tag) (n : string) (c : ascii) : mode * list token :=
  if is_space c then (AfterAttrName t n, [])
  else if (c =? "/")%char then (SelfClosing (tag_add t n ""), [])
  else if (c =? "=")%char then (BeforeAttrValue t n, [])
  else if (c =? ">")%char then (Data, [TTag (tag_add t n "")])
  else (AttrName (tag_add t n "") (String (lower c) ""), []).

Definition attr_name (t : tag) (n : string) (c : ascii) : mode * list token :=
  if is_space c || (c =? "/")%char || (c =? ">")%char then after_attr_name t n c
  else if (c =? "=")%char then (BeforeAttrValue t n, [])
  else (AttrName t (snoc n (lower c)), []).

Definition before_attr_name (t : tag) (c : ascii) : mode * list token :=
  if is_space c then (BeforeAttrName t, [])
  else if (c =? "/")%char then (SelfClosing t, [])
  else if (c =? ">")%char then (Data, [TTag t])
  else if (c =? "=")%char then (AttrName t "=", [])
  else attr_name t "" c.

Definition attr_value_unq (t : tag) (n v : string) (c : ascii) : mode * list token :=
  if is_space c then (BeforeAttrName (tag_add t n v), [])
  else if (c =? "&")%char then (Unsupported, [])
  else if (c =? ">")%char then (Data, [TTag (tag_add t n v)])
  else (AttrValueUnq t n (snoc v c), []).

Definition before_attr_value (t : tag) (n : string) (c : ascii) : mode * list token :=
  if is_space c then (BeforeAttrValue t n, [])
  else if (c =? "034")%char then (AttrValueDQ t n "", [])
  else if (c =? "'")%char then (AttrValueSQ t n "", [])
  else if (c =? ">")%char then (Data, [TTag (tag_add t n "")])
  else attr_value_unq t n "" c.

Definition attr_value_quoted (q : ascii) (t : tag) (n v : string) (c : ascii)
  : mode * list token :=
  if (c =? q)%char then (AfterAttrValueQ (tag_add t n v), [])
  else if (c =? "&")%char then (Unsupported, [])
  else if (q =? "034")%char then (AttrValueDQ t n (snoc v c), [])
  else (AttrValueSQ t n (snoc v c), []).

Definition after_attr_value_q (t : tag) (c : ascii) : mode * list token :=
  if is_space c then (BeforeAttrName t, [])
  else if (c =? "/")%char then (SelfClosing t, [])
  else if (c =? ">")%char then (Data, [TTag t])
  else before_attr_name t c.

Definition self_closing (t : tag) (c : ascii) : mode * list token :=
  if (c =? ">")%char then (Data, [TTag (tag_close t)])
  else before_attr_name t c.

Definition step (m : mode) (c : ascii) : mode * list token :=
  if is_unmodelled c then (Unsupported, []) else
  match m with
  | Data => data c
  | TagOpen => tag_open c
  | EndTagOpen => end_tag_open c
  | TagName t => tag_name_state t c
  | BeforeAttrName t => before_attr_name t c
  | AttrName t n => attr_name t n c
  | AfterAttrName t n => after_attr_name t n c
  | BeforeAttrValue t n => before_attr_value t n c
  | AttrValueDQ t n v => attr_value_quoted "034" t n v c
  | AttrValueSQ t n v => attr_value_quoted "'" t n v c
  | AttrValueUnq t n v => attr_value_unq t n v c
  | AfterAttrValueQ t => after_attr_value_q t c
  | SelfClosing t => self_closing t c
  | Unsupported => (Unsupported, [])
  end.

(** The tokenizer run over [s] from state [m]: the state reached and
    the tokens emitted. *)
Fixpoint run (m : mode) (s : string) : mode * list token :=
  match s with
  | EmptyString => (m, [])
  | String c rest =>
      let r := run (step m c).1 rest in (r.1, (step m c).2 ++ r.2)
  end.

(** End of input: pending text of an unfinished tag opener is emitted,
    an unfinished tag is dropped. *)
Definition tokenize (s : string) : option (list token) :=
  match run Data s with
  | (Data, ts) => Some ts
  | (TagOpen, ts) => Some (ts ++ [TChar "<"])
  | (EndTagOpen, ts) => Some (ts ++ [TChar "<"; TChar "/"])
  | (Unsupported, _) => None
  | (_, ts) => Some ts
  end.

(** *** Tree construction *)

Inductive node :=
| Text (s : string)
| Elem (name : string) (a : attrs) (children : list node).

(** The elements this page's markup is made of, with what each may
    directly contain.  Inside these bounds every start tag opens exactly
    one element and every end tag closes the current one, with no implied
    end tags, no foster parenting and no reconstruction of formatting
    elements; anything else is outside the model. *)
Definition phrasing : list string := ["span"; "strong"; "em"; "button"].
Definition flow : list string := ["div"; "p"; "h4"; "h5"; "ul"] ++ phrasing.

Definition allowed_children (parent : string) : list string :=
  if bool_decide (parent ∈ ["div"; "li"]) then flow
  else if bool_decide (parent = "ul") then ["li"]
  else if bool_decide (parent = "select") then ["option"]
  else if bool_decide (parent ∈ ["p"; "h4"; "h5"] ++ phrasing) then phrasing
  else [].

(** An open element: its name, attributes and children so far, latest first. *)
Definition frame := (string * attrs * list node)%type.

Definition add_child (n : node) (f : frame) : frame :=
  let '(name, a, kids) := f in (name, a, n :: kids).

Definition add_char (c : ascii) (f : frame) : frame :=
  let '(name, a, kids) := f in
  match kids with
  | Text s :: rest => (name, a, Text (snoc s c) :: rest)
  | _ => (name, a, Text (String c "") :: kids)
  end.

Definition frame_name (f : frame) : string := f.1.1.

(** One token against the stack of open elements (innermost first; the
    last frame is the context element of the fragment). *)
Definition build_step (stack : list frame) (t : token) : option (list frame) :=
  match stack with
  | [] => None
  | top :: below =>
      match t with
      | TChar c => Some (add_char c top :: below)
      | TTag (Tag false name a false) =>
          if bool_decide (name ∈ allowed_children (frame_name top))
             && negb (bool_decide (name = "button")
                      && bool_decide ("button" ∈ map frame_name stack))
          then Some ((name, a, []) :: stack)
          else None
      | TTag (Tag false _ _ true) => None
      | TTag (Tag true name _ _) =>
          match below with
          | [] => None
          | parent :: rest =>
              if String.eqb name (frame_name top)
              then let '(n, a, kids) := top in
                   Some (add_child (Elem n a (rev kids)) parent :: rest)
              else None
          end
      end
  end.

Fixpoint build (stack : list frame) (ts : list token) : option (list node) :=
  match ts with
  | [] => match stack with
          | [(_, _, kids)] => Some (rev kids)
          | _ => None
          end
  | t :: rest =>
      match build_step stack t with
      | Some stack' => build stack' rest
      | None => None
      end
  end.

(** The children an element named [context] gets from [innerHTML = s]. *)
Definition parse_fragment (context : string) (s : string) : option (list node) :=
  match tokenize s with
  | Some ts => build [(context, [], [])] ts
  | None => None
  end.

(** *** Queries on the tree *)

(** ASCII-whitespace separated tokens, as [classList] sees an attribute. *)
Fixpoint split_ws_aux (cur : string) (s : string) : list string :=
  match s with
  | EmptyString => if String.eqb cur "" then [] else [cur]
  | String c rest =>
      if is_space c || (c =? "013")%char
      then (if String.eqb cur "" then [] else [cur]) ++ split_ws_aux "" rest
      else split_ws_aux (snoc cur c) rest
  end.

Definition split_ws (s : string) : list string := split_ws_aux "" s.

Definition has_class (cls : string) (a : attrs) : bool :=
  match get_attr "class" a with
  | Some v => bool_decide (cls ∈ split_ws v)
  | None => false
  end.

(** [querySelectorAll("." + cls)] below a list of nodes: the attribute
    lists of the matching elements, in document order. *)
Fixpoint select_class (cls : string) (n : node) : list attrs :=
  match n with
  | Text _ => []
  | Elem _ a kids =>
      (if has_class cls a then [a] else [])
      ++ flat_map (select_class cls) kids
  end.

Definition query_class (cls : string) (ns : list node) : list attrs :=
  flat_map (select_class cls) ns.

(** [textContent] of a node: its text descendants in order. *)
Fixpoint text_content (n : node) : string :=
  match n with
  | Text s => s
  | Elem _ _ kids => String.concat "" (map text_content kids)
  end.

End HTML.

(** ** Data model *)

(** A capability as the server's JSON carries it.  [industry_verticals],
    [capacity] and [consultants] may be missing from the object
    ([None] is JavaScript's [undefined]); [capacity] is a whole number
    of hours. *)
Record Capability := {
  description : string;
  practice_area : string;
  industry_verticals : option (list string);
  capacity : option Z;
  consultants : option (list string)
}.

(** [{ ...c, consultants: l }] *)
Definition with_consultants (c : Capability) (l : list string) : Capability :=
  {| description := description c;
     practice_area := practice_area c;
     industry_verticals := industry_verticals c;
     capacity := capacity c;
     consultants := Some l |}.

(** *** Objects with string keys

    The own properties of an object in iteration order.  Writing an
    existing key keeps its place; a new key goes last (creation order).
    JavaScript lists integer-like keys first; the writes of this program
    only ever reach a key that is present, so that case never arises. *)
Section Obj.
Context {V : Type}.

Fixpoint obj_get (k : string) (o : list (string * V)) : option V :=
  match o with
  | [] => None
  | (k', v) :: rest => if String.eqb k' k then Some v else obj_get k rest
  end.

Fixpoint obj_set (k : string) (v : V) (o : list (string * V)) : list (string * V) :=
  match o with
  | [] => [(k, v)]
  | (k', v') :: rest =>
      if String.eqb k' k then (k', v) :: rest else (k', v') :: obj_set k v rest
  end.

(** [Object.keys] *)
Definition Object_keys (o : list (string * V)) : list string := map fst o.
End Obj.

(** *** The store of objects *)

Definition loc := nat.

Inductive cell :=
| Snapshot (entries : list (string * loc))
| CapabilityObj (c : Capability).

Definition alloc (c : cell) (h : list cell) : loc * list cell :=
  (length h, h ++ [c]).

(** The own properties of the snapshot object at [l]. *)
Definition snapshot_at (h : list cell) (l : loc) : list (string * loc) :=
  match h !! l with
  | Some (Snapshot es) => es
  | _ => []
  end.

Definition capability_at (h : list cell) (l : loc) : option Capability :=
  match h !! l with
  | Some (CapabilityObj c) => Some c
  | _ => None
  end.

(** [Object.entries] of the snapshot at [l], each value dereferenced
    (an entry whose location holds no capability, which no run of the
    program creates, is skipped). *)
Definition Object_entries (h : list cell) (l : loc) : list (string * Capability) :=
  omap (fun '(name, lc) => pair name <$> capability_at h lc) (snapshot_at h l).

(** [capabilities[cap].consultants] read from the store. *)
Definition consultants_of (h : list cell) (l : loc) (cap : string)
  : option (list string) :=
  lc ← obj_get cap (snapshot_at h l); c ← capability_at h lc; consultants c.

(** [JSON.parse] of a capability mapping: one fresh object per entry. *)
Fixpoint alloc_entries (data : list (string * Capability)) (h : list cell)
  : list (string * loc) * list cell :=
  match data with
  | [] => ([], h)
  | (name, c) :: rest =>
      let '(l, h1) := alloc (CapabilityObj c) h in
      let '(es, h2) := alloc_entries rest h1 in
      ((name, l) :: es, h2)
  end.

(** ** The page *)

(** The form's submit handler installed by [UI.init]. *)
Inductive listener := SubmitRegister.

(** A card built by [createCapabilityCard]: class, assigned markup, and
    the elements [querySelectorAll(".delete-btn")] returned, each of
    which received a click listener ([None]: markup outside the parser
    model). *)
Record CardEl := {
  card_className : string;
  card_innerHTML : string;
  card_delete_btns : option (list HTML.attrs)
}.

(** The list container: the markup last assigned through [innerHTML]
    and the cards appended since. *)
Record ListEl := {
  list_innerHTML : string;
  list_appended : list CardEl
}.

Record OptionEl := {
  option_value : string;
  option_textContent : string
}.

Record SelectEl := {
  select_innerHTML : string;
  select_appended : list OptionEl
}.

Record FormEl := { form_listeners : list listener }.

Record MessageEl := {
  textContent : string;
  classList : list string
}.

(** The host page: the element each well-known id designates, if any
    ([document.getElementById] of "capabilities-list", "capability",
    "register-form" and "message"). *)
Record Document := {
  el_capabilities_list : option ListEl;
  el_capability : option SelectEl;
  el_register_form : option FormEl;
  el_message : option MessageEl
}.

(** [UI.elements]: a handle is the node it designates, or null. *)
Record Elements := {
  capabilitiesList : option ListEl;
  capabilitySelect : option SelectEl;
  registerForm : option FormEl;
  messageDiv : option MessageEl
}.

(** ** The world a method runs in *)

Inductive exn :=
| FetchFailed    (* fetch() rejected *)
| SyntaxError    (* response.json() rejected *)
| TypeError.     (* a property of undefined or null, or a spread of undefined *)

Record World := {
  capabilities : loc;               (* AppState.capabilities *)
  heap : list cell;
  elements : Elements;              (* UI.elements *)
  console : list (string * exn);    (* console.error *)
  requests : list (string * string);(* method and URL of each fetch *)
  clock : N;                        (* milliseconds *)
  timers : list N                   (* due times of the pending hide timers *)
}.

Definition set_store (l : loc) (h : list cell) (w : World) : World :=
  {| capabilities := l; heap := h; elements := elements w; console := console w;
     requests := requests w; clock := clock w; timers := timers w |}.

Definition set_elements (e : Elements) (w : World) : World :=
  {| capabilities := capabilities w; heap := heap w; elements := e;
     console := console w; requests := requests w; clock := clock w;
     timers := timers w |}.

Definition log_error (label : string) (e : exn) (w : World) : World :=
  {| capabilities := capabilities w; heap := heap w; elements := elements w;
     console := console w ++ [(label, e)]; requests := requests w;
     clock := clock w; timers := timers w |}.

Definition log_request (method url : string) (w : World) : World :=
  {| capabilities := capabilities w; heap := heap w; elements := elements w;
     console := console w; requests := requests w ++ [(method, url)];
     clock := clock w; timers := timers w |}.

Definition set_timers (c : N) (ts : list N) (w : World) : World :=
  {| capabilities := capabilities w; heap := heap w; elements := elements w;
     console := console w; requests := requests w; clock := c; timers := ts |}.

Definition set_capabilitiesList (x : option ListEl) (e : Elements) : Elements :=
  {| capabilitiesList := x; capabilitySelect := capabilitySelect e;
     registerForm := registerForm e; messageDiv := messageDiv e |}.

Definition set_capabilitySelect (x : option SelectEl) (e : Elements) : Elements :=
  {| capabilitiesList := capabilitiesList e; capabilitySelect := x;
     registerForm := registerForm e; messageDiv := messageDiv e |}.

Definition set_registerForm (x : option FormEl) (e : Elements) : Elements :=
  {| capabilitiesList := capabilitiesList e; capabilitySelect := capabilitySelect e;
     registerForm := x; messageDiv := messageDiv e |}.

Definition set_messageDiv (x : option MessageEl) (e : Elements) : Elements :=
  {| capabilitiesList := capabilitiesList e; capabilitySelect := capabilitySelect e;
     registerForm := registerForm e; messageDiv := x |}.

(** *** Methods: state, and normal or abrupt completion *)

Inductive completion (A : Type) :=
| Normal (a : A)
| Throw (e : exn).
Arguments Normal {A} a.
Arguments Throw {A} e.

Definition M (A : Type) : Type := World -> completion A * World.

Definition ret {A} (a : A) : M A := fun w => (Normal a, w).

Definition throw {A} (e : exn) : M A := fun w => (Throw e, w).

Definition bind {A B} (m : M A) (k : A -> M B) : M B :=
  fun w => match m w with
           | (Normal a, w') => k a w'
           | (Throw e, w') => (Throw e, w')
           end.

Definition try_catch {A} (body : M A) (handler : exn -> M A) : M A :=
  fun w => match body w with
           | (Normal a, w') => (Normal a, w')
           | (Throw e, w') => handler e w'
           end.

Definition get : M World := fun w => (Normal w, w).

Definition modify (f : World -> World) : M unit := fun w => (Normal tt, f w).

Declare Scope js_scope.
Delimit Scope js_scope with js.
Notation "'let*' x := m 'in' k" := (bind m (fun x => k))
  (at level 10, x name, m at level 100, k at level 200) : js_scope.
Notation "m ;; k" := (bind m (fun _ => k))
  (at level 100, k at level 200, right associativity) : js_scope.
Open Scope js_scope.

(** *** The network

    What an awaited [fetch] brings back: a rejection, or a response with
    its [ok] flag and, when the body is JSON, the parsed body. *)
Inductive Http (B : Type) :=
| Rejected
| Responded (ok : bool) (body : option B).
Arguments Rejected {B}.
Arguments Responded {B} ok body.

Record Response (B : Type) := { ok : bool; body : option B }.
Arguments ok {B} r.
Arguments body {B} r.

(** The JSON object a register or unregister request answers with. *)
Record Reply := { message : option string; detail : option string }.

Definition hex_digit (n : N) : ascii :=
  if (n <? 10)%N then ascii_of_N (48 + n) else ascii_of_N (55 + n).

Definition is_unreserved (c : ascii) : bool :=
  let n := N_of_ascii c in
  ((65 <=? n)%N && (n <=? 90)%N) || ((97 <=? n)%N && (n <=? 122)%N)
  || ((48 <=? n)%N && (n <=? 57)%N)
  || bool_decide (c ∈ ["-"; "_"; "."; "!"; "~"; "*"; "'"; "("; ")"]%char).

Fixpoint encodeURIComponent (s : string) : string :=
  match s with
  | EmptyString => ""
  | String c rest =>
      (if is_unreserved c then String c ""
       else String "%" (String (hex_digit (N_of_ascii c / 16))
                          (String (hex_digit (N_of_ascii c mod 16)) "")))
      +:+ encodeURIComponent rest
  end.

Definition fetch {B} (method url : string) (net : Http B) : M (Response B) :=
  modify (log_request method url) ;;
  match net with
  | Rejected => throw FetchFailed
  | Responded o b => ret {| ok := o; body := b |}
  end.

(** [response.json()] *)
Definition json {B} (response : Response B) : M B :=
  match body response with
  | Some b => ret b
  | None => throw SyntaxError
  end.

(** ** UI: the rendering module *)
Module UI.

(** [UI.init]: bind the four handles, then install the submit handler on
    the form handle, which is dereferenced unguarded. *)
Definition init (document : Document) : M unit :=
  modify (set_elements
            {| capabilitiesList := el_capabilities_list document;
               capabilitySelect := el_capability document;
               registerForm := el_register_form document;
               messageDiv := el_message document |}) ;;
  let* w := get in
  match registerForm (elements w) with
  | None => throw TypeError
  | Some form =>
      modify (set_elements
                (set_registerForm
                   (Some {| form_listeners := form_listeners form ++ [SubmitRegister] |})
                   (elements w)))
  end.

Definition nl : string := String "010" "".

Fixpoint indent (n : nat) : string :=
  match n with
  | O => ""
  | S k => String " " (indent k)
  end.

(** The list item of one consultant (the inner template literal). *)
Definition consultant_item (name email : string) : string :=
  "<li>" +:+ nl +:+ indent 16
  +:+ "<span class=" +:+ dq +:+ "consultant-email" +:+ dq +:+ ">" +:+ email +:+ "</span>"
  +:+ nl +:+ indent 16
  +:+ "<button class=" +:+ dq +:+ "delete-btn" +:+ dq
  +:+ " data-capability=" +:+ dq +:+ name +:+ dq
  +:+ " data-email=" +:+ dq +:+ email +:+ dq +:+ ">❌</button>"
  +:+ nl +:+ indent 14 +:+ "</li>".

Definition consultantsHTML (name : string) (details : Capability) : string :=
  match consultants details with
  | Some (e :: es) =>
      "<div class=" +:+ dq +:+ "consultants-section" +:+ dq +:+ ">"
      +:+ nl +:+ indent 10 +:+ "<h5>Registered Consultants:</h5>"
      +:+ nl +:+ indent 10 +:+ "<ul class=" +:+ dq +:+ "consultants-list" +:+ dq +:+ ">"
      +:+ nl +:+ indent 12
      +:+ join "" (map (consultant_item name) (e :: es))
      +:+ nl +:+ indent 10 +:+ "</ul>"
      +:+ nl +:+ indent 8 +:+ "</div>"
  | _ => "<p><em>No consultants registered yet</em></p>"
  end.

Definition availableCapacity (details : Capability) : Z :=
  match capacity details with
  | Some z => z
  | None => 0
  end.

Definition currentConsultants (details : Capability) : nat :=
  match consultants details with
  | Some l => length l
  | None => 0
  end.

(** The markup assigned to the card's [innerHTML]. *)
Definition card_markup (name : string) (details : Capability) : string :=
  nl +:+ indent 6 +:+ "<h4>" +:+ name +:+ "</h4>"
  +:+ nl +:+ indent 6 +:+ "<p>" +:+ description details +:+ "</p>"
  +:+ nl +:+ indent 6 +:+ "<p><strong>Practice Area:</strong> "
  +:+ practice_area details +:+ "</p>"
  +:+ nl +:+ indent 6 +:+ "<p><strong>Industry Verticals:</strong> "
  +:+ match industry_verticals details with
      | Some vs => join ", " vs
      | None => "Not specified"
      end +:+ "</p>"
  +:+ nl +:+ indent 6 +:+ "<p><strong>Capacity:</strong> "
  +:+ pretty (availableCapacity details) +:+ " hours/week available</p>"
  +:+ nl +:+ indent 6 +:+ "<p><strong>Current Team:</strong> "
  +:+ pretty (currentConsultants details) +:+ " consultants</p>"
  +:+ nl +:+ indent 6 +:+ "<div class=" +:+ dq +:+ "consultants-container" +:+ dq +:+ ">"
  +:+ nl +:+ indent 8 +:+ consultantsHTML name details
  +:+ nl +:+ indent 6 +:+ "</div>"
  +:+ nl +:+ indent 4.

(** [capabilityCard.querySelectorAll(".delete-btn")] *)
Definition delete_btns (markup : string) : option (list HTML.attrs) :=
  HTML.query_class "delete-btn" <$> HTML.parse_fragment "div" markup.

Definition createCapabilityCard (name : string) (details : Capability) : CardEl :=
  let markup := card_markup name details in
  {| card_className := "capability-card";
     card_innerHTML := markup;
     card_delete_btns := delete_btns markup |}.

Definition appendCard (card : CardEl) (el : ListEl) : ListEl :=
  {| list_innerHTML := list_innerHTML el;
     list_appended := list_appended el ++ [card] |}.

Definition renderCapabilities (capabilities : loc) : M unit :=
  let* w := get in
  match capabilitiesList (elements w) with
  | None => ret tt
  | Some _ =>
      let cleared := {| list_innerHTML := ""; list_appended := [] |} in
      let filled :=
        fold_left (fun el '(name, details) =>
                     appendCard (createCapabilityCard name details) el)
                  (Object_entries (heap w) capabilities) cleared in
      modify (set_elements (set_capabilitiesList (Some filled) (elements w)))
  end.

Definition placeholder_markup : string :=
  "<option value=" +:+ dq +:+ dq +:+ ">-- Select a capability --</option>".

Definition appendOption (o : OptionEl) (el : SelectEl) : SelectEl :=
  {| select_innerHTML := select_innerHTML el;
     select_appended := select_appended el ++ [o] |}.

Definition renderCapabilitySelect (capabilities : loc) : M unit :=
  let* w := get in
  match capabilitySelect (elements w) with
  | None => ret tt
  | Some _ =>
      let reset := {| select_innerHTML := placeholder_markup; select_appended := [] |} in
      let filled :=
        fold_left (fun el name =>
                     appendOption {| option_value := name; option_textContent := name |} el)
                  (Object_keys (snapshot_at (heap w) capabilities)) reset in
      modify (set_elements (set_capabilitySelect (Some filled) (elements w)))
  end.

(** [classList.add] and [classList.remove] *)
Definition classList_add (c : string) (l : list string) : list string :=
  if bool_decide (c ∈ l) then l else l ++ [c].

Definition classList_remove (c : string) (l : list string) : list string :=
  filter (fun x => x ≠ c) l.

(** [el.className = type]: the class list becomes the tokens of
    [type], each once, in order of first occurrence. *)
Definition className_set (type : string) : list string :=
  fold_left (fun acc c => classList_add c acc) (HTML.split_ws type) [].

Definition hide_delay : N := 5000.

(** [setTimeout(hide, 5000)] *)
Definition setTimeout_hide (w : World) : World :=
  set_timers (clock w) (timers w ++ [(clock w + hide_delay)%N]) w.

(** A [message] that is [undefined] leaves an empty text. *)
Definition showMessage (message : option string) (type : string) : M unit :=
  let* w := get in
  match messageDiv (elements w) with
  | None => ret tt
  | Some _ =>
      let shown :=
        {| textContent := default "" message;
           classList := classList_remove "hidden" (className_set type) |} in
      modify (set_elements (set_messageDiv (Some shown) (elements w))) ;;
      modify setTimeout_hide
  end.

Definition showError (message : string) : M unit :=
  let* w := get in
  match capabilitiesList (elements w) with
  | None => ret tt
  | Some _ =>
      let failed :=
        {| list_innerHTML := "<p>" +:+ message +:+ "</p>"; list_appended := [] |} in
      modify (set_elements (set_capabilitiesList (Some failed) (elements w)))
  end.

(** The timer callback: [messageDiv.classList.add("hidden")]. *)
Definition hide (w : World) : World :=
  match messageDiv (elements w) with
  | None => w
  | Some el =>
      set_elements
        (set_messageDiv
           (Some {| textContent := textContent el;
                    classList := classList_add "hidden" (classList el) |})
           (elements w)) w
  end.

Definition visible (w : World) : bool :=
  match messageDiv (elements w) with
  | Some el => negb (bool_decide ("hidden" ∈ classList el))
  | None => false
  end.

(** The options of the selector: those of the assigned markup, then the
    appended ones. *)
Definition option_of_node (n : HTML.node) : list OptionEl :=
  match n with
  | HTML.Elem "option" a _ =>
      [{| option_value := default (HTML.text_content n) (HTML.get_attr "value" a);
          option_textContent := HTML.text_content n |}]
  | _ => []
  end.

Definition options (el : SelectEl) : option (list OptionEl) :=
  (fun ns => flat_map option_of_node ns ++ select_appended el)
    <$> HTML.parse_fragment "select" (select_innerHTML el).

End UI.

(** Time passes up to [t]: every pending timer due by then fires (all
    run the same callback) and leaves the queue. *)
Definition run_until (t : N) (w : World) : World :=
  let due := filter (fun d => (d <= t)%N) (timers w) in
  let later := filter (fun d => ¬ (d <= t)%N) (timers w) in
  let w' := fold_left (fun w _ => UI.hide w) due w in
  set_timers (N.max (clock w) t) later w'.

(** ** AppState: the state module *)
Module AppState.

(** [AppState.render] *)
Definition render : M unit :=
  let* w := get in
  UI.renderCapabilities (capabilities w) ;;
  UI.renderCapabilitySelect (capabilities w).

(** [this.capabilities = { ...data }] after [JSON.parse] built [data]:
    the parsed capability objects, and a fresh object holding them. *)
Definition store_data (data : list (string * Capability)) : M unit :=
  let* w := get in
  let '(entries, h1) := alloc_entries data (heap w) in
  let '(l, h2) := alloc (Snapshot entries) h1 in
  modify (set_store l h2).

Definition fetchCapabilities (net : Http (list (string * Capability))) : M unit :=
  try_catch
    (let* response := fetch "GET" "/capabilities" net in
     let* data := json response in
     store_data data ;;
     render)
    (fun error =>
       modify (log_error "Error fetching capabilities:" error) ;;
       UI.showError "Failed to load capabilities. Please try again later.").

Definition init (net : Http (list (string * Capability))) : M unit :=
  fetchCapabilities net.

(** The object literal shared by both writes,
    [{ ...this.capabilities,
       [capability]: { ...this.capabilities[capability], consultants: E } }]
    assigned to [this.capabilities], where [E] computes the new array
    from [this.capabilities[capability].consultants].  Reading
    [consultants] of an absent capability, or spreading or filtering a
    missing array, throws before anything is assigned; the objects begun
    by then are unreachable and are not recorded in the store.  (A name
    found only on [Object.prototype] has no [consultants] array either
    and ends in the same TypeError; a name bound to a location that
    holds no capability cannot arise, and the model throws there too.) *)
Definition replace_consultants (capability : string)
    (E : list string -> list string) : M unit :=
  let* w := get in
  match obj_get capability (snapshot_at (heap w) (capabilities w)) with
  | None => throw TypeError
  | Some lc =>
      match capability_at (heap w) lc with
      | None => throw TypeError
      | Some c =>
          match consultants c with
          | None => throw TypeError
          | Some old =>
              let '(lc', h1) :=
                alloc (CapabilityObj (with_consultants c (E old))) (heap w) in
              let '(l, h2) :=
                alloc (Snapshot (obj_set capability lc'
                                   (snapshot_at (heap w) (capabilities w)))) h1 in
              modify (set_store l h2)
          end
      end
  end.

(** [x || fallback] on a string that may be undefined. *)
Definition or_else (x : option string) (fallback : string) : string :=
  match x with
  | Some s => if String.eqb s "" then fallback else s
  | None => fallback
  end.

Definition registerConsultant (capability email : string) (net : Http Reply) : M bool :=
  try_catch
    (let* response :=
       fetch "POST" ("/capabilities/" +:+ encodeURIComponent capability
                     +:+ "/register?email=" +:+ encodeURIComponent email) net in
     let* result := json response in
     if ok response then
       replace_consultants capability (fun old => old ++ [email]) ;;
       render ;;
       UI.showMessage (message result) "success" ;;
       ret true
     else
       UI.showMessage (Some (or_else (detail result) "An error occurred")) "error" ;;
       ret false)
    (fun error =>
       modify (log_error "Error registering:" error) ;;
       UI.showMessage (Some "Failed to register. Please try again.") "error" ;;
       ret false).

Definition unregisterConsultant (capability email : string) (net : Http Reply) : M unit :=
  try_catch
    (let* response :=
       fetch "DELETE" ("/capabilities/" +:+ encodeURIComponent capability
                       +:+ "/unregister?email=" +:+ encodeURIComponent email) net in
     let* result := json response in
     if ok response then
       replace_consultants capability (filter (fun c => c ≠ email)) ;;
       render ;;
       UI.showMessage (message result) "success"
     else
       UI.showMessage (Some (or_else (detail result) "An error occurred")) "error")
    (fun error =>
       modify (log_error "Error unregistering:" error) ;;
       UI.showMessage (Some "Failed to unregister. Please try again.") "error").

End AppState.

(** ** Page load *)

(** The module-level state before [DOMContentLoaded]: [capabilities] is
    the empty object literal, every handle is null. *)
Definition initial_world : World :=
  {| capabilities := 0;
     heap := [Snapshot []];
     elements := {| capabilitiesList := None; capabilitySelect := None;
                    registerForm := None; messageDiv := None |};
     console := [];
     requests := [];
     clock := 0;
     timers := [] |}.

(** The [DOMContentLoaded] handler. *)
Definition on_DOMContentLoaded (document : Document)
    (net : Http (list (string * Capability))) : M unit :=
  UI.init document ;;
  AppState.init net.

(** ** Vocabulary of the statements *)

(** The own properties of the stored snapshot, [AppState.capabilities]. *)
Definition snapshot (w : World) : list (string * loc) :=
  snapshot_at (heap w) (capabilities w).

(** *** Worlds left by the view methods

    What [render], [showMessage] and [showError] leave behind, written
    as functions of the world they start from. *)

(** The list container after [renderCapabilities]: one card per entry. *)
Definition rendered_list (w : World) : ListEl :=
  {| list_innerHTML := "";
     list_appended :=
       map (fun '(name, details) => UI.createCapabilityCard name details)
           (Object_entries (heap w) (capabilities w)) |}.

(** The selector after [renderCapabilitySelect]. *)
Definition rendered_select (w : World) : SelectEl :=
  {| select_innerHTML := UI.placeholder_markup;
     select_appended :=
       map (fun name => {| option_value := name; option_textContent := name |})
           (Object_keys (snapshot w)) |}.

(** The world after [AppState.render]. *)
Definition rendered (w : World) : World :=
  set_elements
    {| capabilitiesList := (fun _ => rendered_list w) <$> capabilitiesList (elements w);
       capabilitySelect := (fun _ => rendered_select w) <$> capabilitySelect (elements w);
       registerForm := registerForm (elements w);
       messageDiv := messageDiv (elements w) |} w.

(** The world after [UI.showMessage message type]. *)
Definition shown (message : option string) (type : string) (w : World) : World :=
  match messageDiv (elements w) with
  | None => w
  | Some _ =>
      UI.setTimeout_hide
        (set_elements
           (set_messageDiv
              (Some {| textContent := default "" message;
                       classList := UI.classList_remove "hidden" (UI.className_set type) |})
              (elements w)) w)
  end.

(** The world after [UI.showError message]. *)
Definition failed (message : string) (w : World) : World :=
  set_elements
    (set_capabilitiesList
       ((fun _ => {| list_innerHTML := "<p>" +:+ message +:+ "</p>"; list_appended := [] |})
          <$> capabilitiesList (elements w))
       (elements w)) w.

(** The world a write leaves when the capability and its array exist. *)
Definition replaced (capability : string) (new : Capability) (w : World) : World :=
  set_store (S (length (heap w)))
            (heap w ++ [CapabilityObj new;
                        Snapshot (obj_set capability (length (heap w)) (snapshot w))]) w.

(** The request lines of the two writes. *)
Definition register_url (capability email : string) : string :=
  "/capabilities/" +:+ encodeURIComponent capability
  +:+ "/register?email=" +:+ encodeURIComponent email.

Definition unregister_url (capability email : string) : string :=
  "/capabilities/" +:+ encodeURIComponent capability
  +:+ "/unregister?email=" +:+ encodeURIComponent email.

(** The options the selector is expected to hold. *)
Definition placeholder_option : OptionEl :=
  {| option_value := ""; option_textContent := "-- Select a capability --" |}.

Definition name_option (name : string) : OptionEl :=
  {| option_value := name; option_textContent := name |}.

(** The reading of the message area's timer the specification gives:
    a message shown at [clock w] is still visible at every instant
    before [clock w + 5000], whatever was shown before it. *)
Definition hide_timer_restarts : Prop :=
  forall message type (w : World) (t : N),
    is_Some (messageDiv (elements w)) ->
    (t < clock w + UI.hide_delay)%N ->
    UI.visible (run_until t (UI.showMessage message type w).2) = true.

(** *** A sample page and store *)

Definition sample_capability : Capability :=
  {| description := "Moving data between platforms";
     practice_area := "Cloud";
     industry_verticals := None;
     capacity := Some 20%Z;
     consultants := Some ["a@x.com"] |}.

Definition sample_document : Document :=
  {| el_capabilities_list := Some {| list_innerHTML := ""; list_appended := [] |};
     el_capability :=
       Some {| select_innerHTML := UI.placeholder_markup; select_appended := [] |};
     el_register_form := Some {| form_listeners := [] |};
     el_message := Some {| textContent := ""; classList := ["hidden"] |} |}.

(** The same page without its registration form. *)
Definition formless_document : Document :=
  {| el_capabilities_list := el_capabilities_list sample_document;
     el_capability := el_capability sample_document;
     el_register_form := None;
     el_message := el_message sample_document |}.

(** The page bound, and a snapshot with one capability. *)
Definition sample_world : World :=
  {| capabilities := 1;
     heap := [CapabilityObj sample_capability; Snapshot [("Data Migration", 0)]];
     elements :=
       {| capabilitiesList := el_capabilities_list sample_document;
          capabilitySelect := el_capability sample_document;
          registerForm := Some {| form_listeners := [SubmitRegister] |};
          messageDiv := el_message sample_document |};
     console := [];
     requests := [];
     clock := 0;
     timers := [] |}.

Definition ok_reply : Reply :=
  {| message := Some "Registered"; detail := None |}.

(** A capability name with a double quote in it. *)
Definition quoted_name : string := "19" +:+ dq +:+ " Rack Provisioning".

(** The failures of the read request: the fetch is rejected, or the body
    of the response is not JSON. *)
Definition fetch_failure {B} (net : Http B) : Prop :=
  net = Rejected \/ exists o, net = Responded o None.

(** The list container showing only the generic load error. *)
Definition load_error : ListEl :=
  {| list_innerHTML := "<p>Failed to load capabilities. Please try again later.</p>";
     list_appended := [] |}.

(** *** Markup-free strings and the matches of a class query

    A string is markup-free when the parser reads it back unchanged both
    as text and inside a double-quoted attribute value. *)
Definition text_char (c : ascii) : bool :=
  negb ((c =? "<")%char || (c =? "&")%char || HTML.is_unmodelled c).

Definition attr_char (c : ascii) : bool :=
  negb ((c =? "034")%char || (c =? "&")%char || HTML.is_unmodelled c).

Fixpoint string_forall (p : ascii -> bool) (s : string) : bool :=
  match s with
  | EmptyString => true
  | String c rest => p c && string_forall p rest
  end.

Definition markup_free (s : string) : bool :=
  string_forall text_char s && string_forall attr_char s.

Definition markup_free_capability (details : Capability) : bool :=
  markup_free (description details)
  && markup_free (practice_area details)
  && forallb markup_free (default [] (industry_verticals details))
  && forallb markup_free (default [] (consultants details)).

(** The control the card is meant to render for one consultant. *)
Definition removal_control (name email : string) : HTML.attrs :=
  [("class", "delete-btn"); ("data-capability", name); ("data-email", email)].

(** An open element seen through a class query: its name, its
    attributes, and the matches among its children so far. *)
Definition aframe := (string * HTML.attrs * list HTML.attrs)%type.

Definition abstract (cls : string) (f : HTML.frame) : aframe :=
  let '(name, a, kids) := f in (name, a, HTML.query_class cls (rev kids)).

Definition abs_step (cls : string) (stack : list aframe) (t : HTML.token)
  : option (list aframe) :=
  match stack with
  | [] => None
  | top :: below =>
      match t with
      | HTML.TChar _ => Some stack
      | HTML.TTag (HTML.Tag false name a false) =>
          if bool_decide (name ∈ HTML.allowed_children top.1.1)
             && negb (bool_decide (name = "button")
                      && bool_decide ("button" ∈ map (fun f : aframe => f.1.1) stack))
          then Some ((name, a, []) :: stack)
          else None
      | HTML.TTag (HTML.Tag false _ _ true) => None
      | HTML.TTag (HTML.Tag true name _ _) =>
          match below with
          | [] => None
          | (pn, pa, pfound) :: rest =>
              if String.eqb name top.1.1
              then let '(n, a, found) := top in
                   Some ((pn, pa,
                          pfound ++ (if HTML.has_class cls a then [a] else []) ++ found)
                           :: rest)
              else None
          end
      end
  end.

Fixpoint abs_steps (cls : string) (stack : list aframe) (ts : list HTML.token)
  : option (list aframe) :=
  match ts with
  | [] => Some stack
  | t :: rest =>
      match abs_step cls stack t with
      | Some stack' => abs_steps cls stack' rest
      | None => None
      end
  end.

(** Tokenizer and class query run together over a piece of markup. *)
Definition feed (cls : string) (st : HTML.mode * list aframe) (s : string)
  : option (HTML.mode * list aframe) :=
  pair (HTML.run st.1 s).1 <$> abs_steps cls st.2 (HTML.run st.1 s).2.

(** The matches once the fragment is closed: those of the context element. *)
Definition found_of (st : list aframe) : option (list HTML.attrs) :=
  match st with
  | [(_, _, found)] => Some found
  | _ => None
  end.

(** ** Event handlers *)


(** The click handler of a removal control: the two data attributes are
    read back from the button and passed to [unregisterConsultant]
    ([None]: an attribute is missing and [getAttribute] gives null,
    which the string-typed model of the method does not cover). *)
Definition on_click_delete (button : HTML.attrs) (net : Http Reply) : option (M unit) :=
  match HTML.get_attr "data-capability" button, HTML.get_attr "data-email" button with
  | Some capability, Some email =>
      Some (AppState.unregisterConsultant capability email net)
  | _, _ => None
  end.

(** ** Vocabulary of the further properties *)

(** The capability object a name designates in the stored snapshot. *)
Definition capability_of (w : World) (name : string) : option Capability :=
  lc ← obj_get name (snapshot w); capability_at (heap w) lc.


(** The stored snapshot is a well-formed object: its keys are distinct
    and each designates a capability object of the store. *)
Definition store_ok (w : World) : Prop :=
  NoDup (Object_keys (snapshot w))
  /\ Forall (fun e : string * loc => is_Some (capability_at (heap w) e.2)) (snapshot w).

(** The entry of [capability] with its consultants replaced. *)
Definition with_entry (capability : string) (new : list string)
    (e : string * Capability) : string * Capability :=
  if String.eqb e.1 capability then (e.1, with_consultants e.2 new) else e.

(** The characters [encodeURIComponent] can produce. *)
Definition is_uri_char (c : ascii) : bool := is_unreserved c || (c =? "%")%char.

(** The messages of the two writes. *)
Definition register_failed : string := "Failed to register. Please try again.".
Definition unregister_failed : string := "Failed to unregister. Please try again.".

(** The message area showing [text] with the single class [type]. *)
Definition message_shown (text type : string) : MessageEl :=
  {| textContent := text; classList := [type] |}.

(** The world after [this.capabilities = { ...data }]. *)
Definition loaded (data : list (string * Capability)) (w : World) : World :=
  set_store (length (alloc_entries data (heap w)).2)
            ((alloc_entries data (heap w)).2 ++ [Snapshot (alloc_entries data (heap w)).1])
            w.

(** The list container showing one card per entry of [data]. *)
Definition cards_of (data : list (string * Capability)) : ListEl :=
  {| list_innerHTML := "";
     list_appended :=
       map (fun '(name, details) => UI.createCapabilityCard name details) data |}.

(** The selector offering the placeholder and then [names]. *)
Definition select_of (names : list string) : SelectEl :=
  {| select_innerHTML := UI.placeholder_markup;
     select_appended := map name_option names |}.

(** The entries of an object of names and locations, dereferenced in [h]. *)
Definition entries_in (h : list cell) (es : list (string * loc))
  : list (string * Capability) :=
  omap (fun '(name, lc) => pair name <$> capability_at h lc) es.


(** The message element once the hide callback has run on it. *)
Definition hidden_el (el : MessageEl) : MessageEl :=
  {| textContent := textContent el;
     classList := UI.classList_add "hidden" (classList el) |}.

(** The value of a hexadecimal digit as [hex_digit] writes it. *)
Definition unhex (a : ascii) : N :=
  if (N_of_ascii a <? 58)%N then (N_of_ascii a - 48)%N else (N_of_ascii a - 55)%N.

(** ** Properties *)

(** *** Worlds reached by the view methods

    Each view method completes normally; its whole effect is one of the
    world functions below. *)

Lemma set_elements_id (w : World) : set_elements (elements w) w = w.
Proof. by destruct w. Qed.

Lemma set_capabilitiesList_id (e : Elements) :
  set_capabilitiesList (capabilitiesList e) e = e.
Proof. by destruct e. Qed.

Lemma fold_appendCard (entries : list (string * Capability)) (el : ListEl) :
  fold_left (fun el '(name, details) =>
               UI.appendCard (UI.createCapabilityCard name details) el) entries el
  = {| list_innerHTML := list_innerHTML el;
       list_appended :=
         list_appended el
         ++ map (fun '(name, details) => UI.createCapabilityCard name details) entries |}.
Proof.
  revert el. induction entries as [|[name details] entries IH]; intros el; simpl.
  - rewrite app_nil_r. by destruct el.
  - rewrite IH. simpl. by rewrite <- app_assoc.
Qed.

Lemma fold_appendOption (names : list string) (el : SelectEl) :
  fold_left (fun el name =>
               UI.appendOption {| option_value := name; option_textContent := name |} el)
            names el
  = {| select_innerHTML := select_innerHTML el;
       select_appended :=
         select_appended el
         ++ map (fun name => {| option_value := name; option_textContent := name |}) names |}.
Proof.
  revert el. induction names as [|name names IH]; intros el; simpl.
  - rewrite app_nil_r. by destruct el.
  - rewrite IH. simpl. by rewrite <- app_assoc.
Qed.

Lemma renderCapabilities_run (w : World) :
  UI.renderCapabilities (capabilities w) w
  = (Normal tt,
     set_elements
       (set_capabilitiesList
          ((fun _ => rendered_list w) <$> capabilitiesList (elements w))
          (elements w)) w).
Proof.
  unfold UI.renderCapabilities, bind, get, modify, ret.
  destruct (capabilitiesList (elements w)) as [el|] eqn:E; simpl.
  - by rewrite fold_appendCard.
  - by rewrite <- E, set_capabilitiesList_id, set_elements_id.
Qed.

Lemma renderCapabilitySelect_run (w : World) :
  UI.renderCapabilitySelect (capabilities w) w
  = (Normal tt,
     set_elements
       (set_capabilitySelect
          ((fun _ => rendered_select w) <$> capabilitySelect (elements w))
          (elements w)) w).
Proof.
  unfold UI.renderCapabilitySelect, bind, get, modify, ret.
  destruct (capabilitySelect (elements w)) as [el|] eqn:E; simpl.
  - by rewrite fold_appendOption.
  - rewrite <- E. by destruct w as [? ? [] ? ? ? ?].
Qed.

Lemma render_run (w : World) : AppState.render w = (Normal tt, rendered w).
Proof.
  unfold AppState.render, bind, get.
  rewrite renderCapabilities_run.
  pose proof (renderCapabilitySelect_run
                (set_elements
                   (set_capabilitiesList
                      ((fun _ => rendered_list w) <$> capabilitiesList (elements w))
                      (elements w)) w)) as H.
  simpl in H. rewrite H. by destruct w as [? ? [] ? ? ? ?].
Qed.

Lemma showMessage_run (message : option string) (type : string) (w : World) :
  UI.showMessage message type w = (Normal tt, shown message type w).
Proof.
  unfold UI.showMessage, shown, bind, get, modify, ret.
  by destruct (messageDiv (elements w)).
Qed.

Lemma showError_run (message : string) (w : World) :
  UI.showError message w = (Normal tt, failed message w).
Proof.
  unfold UI.showError, failed, bind, get, modify, ret.
  destruct (capabilitiesList (elements w)) eqn:E; simpl; [done|].
  by rewrite <- E, set_capabilitiesList_id, set_elements_id.
Qed.

(** The view methods leave the store alone. *)
Lemma rendered_store (w : World) :
  heap (rendered w) = heap w /\ capabilities (rendered w) = capabilities w.
Proof. done. Qed.

Lemma shown_store (message : option string) (type : string) (w : World) :
  heap (shown message type w) = heap w
  /\ capabilities (shown message type w) = capabilities w.
Proof. unfold shown. by destruct (messageDiv (elements w)). Qed.

Lemma shown_console (message : option string) (type : string) (w : World) :
  console (shown message type w) = console w.
Proof. unfold shown. by destruct (messageDiv (elements w)). Qed.

Lemma shown_messageDiv (message : option string) (type : string) (w : World) :
  messageDiv (elements (shown message type w))
  = (fun _ => {| textContent := default "" message;
                 classList := UI.classList_remove "hidden" (UI.className_set type) |})
      <$> messageDiv (elements w).
Proof. unfold shown. by destruct (messageDiv (elements w)) eqn:E; simpl; rewrite ?E. Qed.

(** *** Objects and the store *)

Section ObjFacts.
Context {V : Type}.
Implicit Types (o : list (string * V)) (k : string) (v : V).

Lemma obj_get_set_eq o k v : obj_get k (obj_set k v o) = Some v.
Proof.
  induction o as [|[k' v'] o IH]; simpl.
  - by rewrite String.eqb_refl.
  - destruct (String.eqb k' k) eqn:E; simpl; rewrite E; [done | apply IH].
Qed.

Lemma obj_get_set_ne o k k' v : k' <> k -> obj_get k' (obj_set k v o) = obj_get k' o.
Proof.
  intros Hne. induction o as [|[k0 v0] o IH]; simpl.
  - destruct (String.eqb k k') eqn:E; [|done].
    apply String.eqb_eq in E. congruence.
  - destruct (String.eqb k0 k) eqn:E; simpl.
    + apply String.eqb_eq in E. subst k0.
      destruct (String.eqb k k') eqn:E'; [|done].
      apply String.eqb_eq in E'. congruence.
    + by rewrite IH.
Qed.

(** Writing a key that is present keeps the keys and their order. *)
Lemma obj_set_keys o k v :
  is_Some (obj_get k o) -> Object_keys (obj_set k v o) = Object_keys o.
Proof.
  unfold Object_keys. induction o as [|[k0 v0] o IH]; simpl.
  - by intros [? ?].
  - destruct (String.eqb k0 k) eqn:E; simpl; [done|].
    intros H. by rewrite IH.
Qed.
End ObjFacts.

Lemma alloc_old (c : cell) (h : list cell) (l : loc) (x : cell) :
  h !! l = Some x -> (alloc c h).2 !! l = Some x.
Proof. intros H. simpl. by apply lookup_app_l_Some. Qed.

Lemma alloc_new (c : cell) (h : list cell) : (alloc c h).2 !! (alloc c h).1 = Some c.
Proof. simpl. by rewrite list_lookup_middle. Qed.

Lemma replace_consultants_run capability E (w : World) lc c old :
  obj_get capability (snapshot w) = Some lc ->
  capability_at (heap w) lc = Some c ->
  consultants c = Some old ->
  AppState.replace_consultants capability E w
  = (Normal tt, replaced capability (with_consultants c (E old)) w).
Proof.
  intros Hlc Hc Hold. unfold AppState.replace_consultants, bind, get.
  unfold snapshot in Hlc. rewrite Hlc, Hc, Hold. simpl.
  unfold modify, replaced. do 2 f_equal.
  - rewrite length_app. simpl. lia.
  - by rewrite <- app_assoc.
Qed.

Lemma replace_consultants_absent capability E (w : World) :
  obj_get capability (snapshot w) = None ->
  AppState.replace_consultants capability E w = (Throw TypeError, w).
Proof.
  intros H. unfold AppState.replace_consultants, bind, get.
  unfold snapshot in H. by rewrite H.
Qed.

Lemma replaced_old capability new (w : World) (l : loc) (x : cell) :
  heap w !! l = Some x -> heap (replaced capability new w) !! l = Some x.
Proof. intros H. simpl. by apply lookup_app_l_Some. Qed.

Lemma replaced_snapshot capability new (w : World) :
  snapshot (replaced capability new w)
  = obj_set capability (length (heap w)) (snapshot w).
Proof.
  unfold snapshot at 1, snapshot_at. simpl.
  replace (S (length (heap w))) with (length (heap w) + 1) by lia.
  rewrite lookup_app_r by lia.
  by replace (length (heap w) + 1 - length (heap w)) with 1 by lia.
Qed.

Lemma replaced_consultants capability new (w : World) :
  consultants_of (heap (replaced capability new w))
                 (capabilities (replaced capability new w)) capability
  = consultants new.
Proof.
  unfold consultants_of.
  change (snapshot_at _ _) with (snapshot (replaced capability new w)).
  rewrite replaced_snapshot, obj_get_set_eq. simpl.
  unfold capability_at. simpl.
  rewrite lookup_app_r by lia. rewrite Nat.sub_diag. simpl.
  by destruct (consultants new).
Qed.

(** A location bound in the snapshot is a live cell of the store. *)
Lemma snapshot_live (w : World) (k : string) (l : loc) :
  obj_get k (snapshot w) = Some l -> capabilities w < length (heap w).
Proof.
  unfold snapshot, snapshot_at.
  destruct (heap w !! capabilities w) eqn:E; [|done].
  intros _. by eapply lookup_lt_Some.
Qed.

(** *** The two writes *)

Lemma registerConsultant_ok_run capability email reply (w : World) lc c old :
  obj_get capability (snapshot w) = Some lc ->
  capability_at (heap w) lc = Some c ->
  consultants c = Some old ->
  AppState.registerConsultant capability email (Responded true (Some reply)) w
  = (Normal true,
     shown (message reply) "success"
       (rendered (replaced capability (with_consultants c (old ++ [email]))
                    (log_request "POST" (register_url capability email) w)))).
Proof.
  intros Hlc Hc Hold.
  unfold AppState.registerConsultant, try_catch, bind at 1 2 3, fetch, json.
  unfold bind at 1, modify, ret. simpl.
  unfold bind at 1.
  erewrite (replace_consultants_run capability _ (log_request _ _ w)); eauto.
  unfold bind at 1. rewrite render_run.
  unfold bind. by rewrite showMessage_run.
Qed.

Lemma unregisterConsultant_ok_run capability email reply (w : World) lc c old :
  obj_get capability (snapshot w) = Some lc ->
  capability_at (heap w) lc = Some c ->
  consultants c = Some old ->
  AppState.unregisterConsultant capability email (Responded true (Some reply)) w
  = (Normal tt,
     shown (message reply) "success"
       (rendered (replaced capability
                    (with_consultants c (filter (fun x => x ≠ email) old))
                    (log_request "DELETE" (unregister_url capability email) w)))).
Proof.
  intros Hlc Hc Hold.
  unfold AppState.unregisterConsultant, try_catch, bind at 1 2 3, fetch, json.
  unfold bind at 1, modify, ret. simpl.
  unfold bind at 1.
  erewrite (replace_consultants_run capability _ (log_request _ _ w)); eauto.
  unfold bind at 1. rewrite render_run.
  by rewrite showMessage_run.
Qed.

Lemma shown_snapshot message type (w : World) :
  snapshot (shown message type w) = snapshot w.
Proof. unfold snapshot. by destruct (shown_store message type w) as [-> ->]. Qed.

(** C1.  For every snapshot and every capability present in it (with its
    array of consultants), a register call answered with an ok response
    returns true and leaves a new snapshot in which the capability's
    consultants are the old sequence followed by the email, once; every
    other name is bound to the same object as before, no existing object
    of the store has been touched, and the keys keep their order. *)
Theorem registerConsultant_success capability email reply (w : World) lc c old :
  obj_get capability (snapshot w) = Some lc ->
  capability_at (heap w) lc = Some c ->
  consultants c = Some old ->
  exists w',
    AppState.registerConsultant capability email (Responded true (Some reply)) w
    = (Normal true, w')
    /\ consultants_of (heap w') (capabilities w') capability = Some (old ++ [email])
    /\ (forall k, k <> capability -> obj_get k (snapshot w') = obj_get k (snapshot w))
    /\ (forall l x, heap w !! l = Some x -> heap w' !! l = Some x)
    /\ Object_keys (snapshot w') = Object_keys (snapshot w)
    /\ capabilities w' <> capabilities w.
Proof.
  intros Hlc Hc Hold. eexists. split.
  { by apply (registerConsultant_ok_run _ _ _ w lc c old). }
  set (w0 := log_request _ _ w).
  set (new := with_consultants c (old ++ [email])).
  destruct (shown_store (message reply) "success" (rendered (replaced capability new w0)))
    as [Hh Hl].
  rewrite shown_snapshot, Hh, Hl.
  change (snapshot (rendered ?x)) with (snapshot x).
  change (heap (rendered ?x)) with (heap x).
  change (capabilities (rendered ?x)) with (capabilities x).
  split; [apply (replaced_consultants capability new w0)|].
  rewrite replaced_snapshot.
  split; [intros k Hk; by apply obj_get_set_ne|].
  split; [intros l x Hx; by apply (replaced_old capability new w0)|].
  split; [apply obj_set_keys; by exists lc|].
  apply snapshot_live in Hlc. simpl. lia.
Qed.

Lemma registerConsultant_success_witness :
  obj_get "Data Migration" (snapshot sample_world) = Some 0
  /\ capability_at (heap sample_world) 0 = Some sample_capability
  /\ consultants sample_capability = Some ["a@x.com"]
  /\ exists w',
       AppState.registerConsultant "Data Migration" "b@x.com"
         (Responded true (Some ok_reply)) sample_world
       = (Normal true, w')
       /\ consultants_of (heap w') (capabilities w') "Data Migration"
          = Some (["a@x.com"] ++ ["b@x.com"])
       /\ (forall k, k <> "Data Migration"
                     -> obj_get k (snapshot w') = obj_get k (snapshot sample_world))
       /\ (forall l x, heap sample_world !! l = Some x -> heap w' !! l = Some x)
       /\ Object_keys (snapshot w') = Object_keys (snapshot sample_world)
       /\ capabilities w' <> capabilities sample_world.
Proof.
  repeat (split; [reflexivity|]).
  apply (registerConsultant_success "Data Migration" "b@x.com" ok_reply sample_world
           0 sample_capability ["a@x.com"]); reflexivity.
Defined.

(** C2.  For every snapshot and every capability present in it (with its
    array of consultants), an unregister call answered with an ok
    response leaves a new snapshot in which the capability's consultants
    are the old sequence without the entries equal, as strings, to the
    email; its other entries keep their order. *)
Theorem unregisterConsultant_success capability email reply (w : World) lc c old :
  obj_get capability (snapshot w) = Some lc ->
  capability_at (heap w) lc = Some c ->
  consultants c = Some old ->
  exists w' new,
    AppState.unregisterConsultant capability email (Responded true (Some reply)) w
    = (Normal tt, w')
    /\ consultants_of (heap w') (capabilities w') capability = Some new
    /\ new = filter (fun x => x <> email) old
    /\ (forall x, x ∈ new <-> x ∈ old /\ x <> email).
Proof.
  intros Hlc Hc Hold. eexists. exists (filter (fun x => x <> email) old). split.
  { by apply (unregisterConsultant_ok_run _ _ _ w lc c old). }
  set (w0 := log_request _ _ w).
  set (new := with_consultants c _).
  destruct (shown_store (message reply) "success" (rendered (replaced capability new w0)))
    as [-> ->].
  change (heap (rendered ?x)) with (heap x).
  change (capabilities (rendered ?x)) with (capabilities x).
  split; [apply (replaced_consultants capability new w0)|].
  split; [done|].
  intros x. rewrite list_elem_of_filter. tauto.
Qed.

Lemma unregisterConsultant_success_witness :
  obj_get "Data Migration" (snapshot sample_world) = Some 0
  /\ capability_at (heap sample_world) 0 = Some sample_capability
  /\ consultants sample_capability = Some ["a@x.com"]
  /\ exists w' new,
       AppState.unregisterConsultant "Data Migration" "a@x.com"
         (Responded true (Some ok_reply)) sample_world
       = (Normal tt, w')
       /\ consultants_of (heap w') (capabilities w') "Data Migration" = Some new
       /\ new = filter (fun x => x <> "a@x.com") ["a@x.com"]
       /\ (forall x, x ∈ new <-> x ∈ ["a@x.com"] /\ x <> "a@x.com").
Proof.
  repeat (split; [reflexivity|]).
  apply (unregisterConsultant_success "Data Migration" "a@x.com" ok_reply sample_world
           0 sample_capability ["a@x.com"]); reflexivity.
Defined.

(** C3.  A register or unregister call answered with a non-ok response,
    whatever its body, leaves [capabilities] pointing at the very same
    snapshot object and the store of objects untouched; register
    returns false. *)
Theorem failed_write_keeps_snapshot capability email (body : option Reply) (w : World) :
  (exists w',
     AppState.registerConsultant capability email (Responded false body) w
     = (Normal false, w')
     /\ capabilities w' = capabilities w /\ heap w' = heap w)
  /\ (exists w',
        AppState.unregisterConsultant capability email (Responded false body) w
        = (Normal tt, w')
        /\ capabilities w' = capabilities w /\ heap w' = heap w).
Proof.
  split.
  - unfold AppState.registerConsultant, try_catch, bind at 1 2 3, fetch, json.
    unfold bind at 1, modify, ret. simpl.
    destruct body as [reply|]; simpl.
    + unfold bind. rewrite showMessage_run. eexists. split; [done|].
      match goal with |- context [shown ?m ?t ?x] =>
        destruct (shown_store m t x) as [-> ->] end. done.
    + unfold throw, bind. simpl. rewrite showMessage_run.
      eexists. split; [done|].
      match goal with |- context [shown ?m ?t ?x] =>
        destruct (shown_store m t x) as [-> ->] end. done.
  - unfold AppState.unregisterConsultant, try_catch, bind at 1 2 3, fetch, json.
    unfold bind at 1, modify, ret. simpl.
    destruct body as [reply|]; simpl.
    + rewrite showMessage_run. eexists. split; [done|].
      match goal with |- context [shown ?m ?t ?x] =>
        destruct (shown_store m t x) as [-> ->] end. done.
    + unfold throw, bind. simpl. rewrite showMessage_run.
      eexists. split; [done|].
      match goal with |- context [shown ?m ?t ?x] =>
        destruct (shown_store m t x) as [-> ->] end. done.
Qed.

(** C9.  When the response is ok but the capability is absent from the
    snapshot, reading its consultants throws inside the try block; the
    method's own handler logs the error, shows the generic failure
    message and returns false.  The call completes normally, the
    snapshot object and the store are as before. *)
Theorem registerConsultant_absent_capability capability email reply (w : World) :
  obj_get capability (snapshot w) = None ->
  exists w',
    AppState.registerConsultant capability email (Responded true (Some reply)) w
    = (Normal false, w')
    /\ capabilities w' = capabilities w
    /\ heap w' = heap w
    /\ console w' = console w ++ [("Error registering:", TypeError)]
    /\ messageDiv (elements w')
       = (fun _ => {| textContent := "Failed to register. Please try again.";
                      classList := ["error"] |}) <$> messageDiv (elements w).
Proof.
  intros Habs.
  unfold AppState.registerConsultant, try_catch, bind at 1 2 3, fetch, json.
  unfold bind at 1, modify, ret. simpl.
  unfold bind at 1.
  rewrite (replace_consultants_absent capability _ (log_request _ _ w)) by done.
  unfold bind. simpl. rewrite showMessage_run.
  eexists. split; [done|].
  match goal with |- context [shown ?m ?t ?x] =>
    destruct (shown_store m t x) as [-> ->];
    rewrite (shown_console m t x), (shown_messageDiv m t x) end.
  done.
Qed.

Lemma registerConsultant_absent_capability_witness :
  obj_get "Tape Archival" (snapshot sample_world) = None
  /\ exists w',
       AppState.registerConsultant "Tape Archival" "b@x.com"
         (Responded true (Some ok_reply)) sample_world
       = (Normal false, w')
       /\ capabilities w' = capabilities sample_world
       /\ heap w' = heap sample_world
       /\ console w' = console sample_world ++ [("Error registering:", TypeError)]
       /\ messageDiv (elements w')
          = (fun _ => {| textContent := "Failed to register. Please try again.";
                         classList := ["error"] |})
              <$> messageDiv (elements sample_world).
Proof.
  split; [reflexivity|].
  apply (registerConsultant_absent_capability "Tape Archival" "b@x.com" ok_reply
           sample_world). reflexivity.
Defined.

Lemma filter_ne_snoc (email : string) (old : list string) :
  email ∉ old -> filter (fun x => x <> email) (old ++ [email]) = old.
Proof.
  induction old as [|x old IH]; intros Hnot; simpl.
  - rewrite filter_cons_False; [done | by intros H].
  - apply not_elem_of_cons in Hnot as [Hx Hold].
    rewrite filter_cons_True by congruence. by rewrite IH.
Qed.

(** C10.  Round trip: when the capability's consultants do not contain
    the email, a successful register followed by a successful unregister
    of the same email leaves the capability with a consultants sequence
    equal, element by element, to the original one. *)
Theorem register_then_unregister capability email reply1 reply2 (w : World) lc c old :
  obj_get capability (snapshot w) = Some lc ->
  capability_at (heap w) lc = Some c ->
  consultants c = Some old ->
  email ∉ old ->
  exists w1 w2,
    AppState.registerConsultant capability email (Responded true (Some reply1)) w
    = (Normal true, w1)
    /\ AppState.unregisterConsultant capability email (Responded true (Some reply2)) w1
       = (Normal tt, w2)
    /\ consultants_of (heap w2) (capabilities w2) capability = Some old.
Proof.
  intros Hlc Hc Hold Hnot.
  set (mid := with_consultants c (old ++ [email])).
  set (w0 := log_request "POST" (register_url capability email) w).
  set (w1 := shown (message reply1) "success" (rendered (replaced capability mid w0))).
  set (new := with_consultants mid (filter (fun x => x <> email) (old ++ [email]))).
  set (w1' := log_request "DELETE" (unregister_url capability email) w1).
  exists w1, (shown (message reply2) "success" (rendered (replaced capability new w1'))).
  split; [by apply (registerConsultant_ok_run capability email reply1 w lc c old)|].
  assert (Hs : snapshot w1 = obj_set capability (length (heap w)) (snapshot w)).
  { unfold w1. rewrite shown_snapshot. apply (replaced_snapshot capability mid w0). }
  assert (Hh : heap w1 = heap w ++ [CapabilityObj mid; Snapshot (snapshot w1)]).
  { rewrite Hs. unfold w1.
    by destruct (shown_store (message reply1) "success"
                   (rendered (replaced capability mid w0))) as [-> _]. }
  assert (Hget : obj_get capability (snapshot w1) = Some (length (heap w))).
  { rewrite Hs. apply obj_get_set_eq. }
  assert (Hmid : capability_at (heap w1) (length (heap w)) = Some mid).
  { unfold capability_at. rewrite Hh, lookup_app_r by lia.
    by rewrite Nat.sub_diag. }
  split.
  { by apply (unregisterConsultant_ok_run capability email reply2 w1
                (length (heap w)) mid (old ++ [email])). }
  destruct (shown_store (message reply2) "success" (rendered (replaced capability new w1')))
    as [-> ->].
  change (heap (rendered ?x)) with (heap x).
  change (capabilities (rendered ?x)) with (capabilities x).
  rewrite (replaced_consultants capability new w1'). simpl.
  f_equal. by apply filter_ne_snoc.
Qed.

Lemma register_then_unregister_witness :
  obj_get "Data Migration" (snapshot sample_world) = Some 0
  /\ capability_at (heap sample_world) 0 = Some sample_capability
  /\ consultants sample_capability = Some ["a@x.com"]
  /\ ("b@x.com" ∉ ["a@x.com"])
  /\ exists w1 w2,
       AppState.registerConsultant "Data Migration" "b@x.com"
         (Responded true (Some ok_reply)) sample_world
       = (Normal true, w1)
       /\ AppState.unregisterConsultant "Data Migration" "b@x.com"
            (Responded true (Some ok_reply)) w1
          = (Normal tt, w2)
       /\ consultants_of (heap w2) (capabilities w2) "Data Migration"
          = Some ["a@x.com"].
Proof.
  assert (Hnot : "b@x.com" ∉ ["a@x.com"]).
  { apply not_elem_of_cons. split; [done | apply not_elem_of_nil]. }
  repeat (split; [reflexivity|]). split; [exact Hnot|].
  apply (register_then_unregister "Data Migration" "b@x.com" ok_reply ok_reply
           sample_world 0 sample_capability ["a@x.com"]); try reflexivity.
  exact Hnot.
Defined.

(** *** The selector *)

Lemma placeholder_parsed :
  HTML.parse_fragment "select" UI.placeholder_markup
  = Some [HTML.Elem "option" [("value", "")] [HTML.Text "-- Select a capability --"]].
Proof. reflexivity. Qed.

(** C6.  For every snapshot object [S] of the store, with the selector
    handle bound, [renderCapabilitySelect(S)] leaves a selector whose
    options are exactly one leading placeholder with an empty value,
    then one option per key of [S] in [S]'s key order, each with the
    capability name as both value and label. *)
Theorem renderCapabilitySelect_options (S : loc) (w : World) :
  is_Some (capabilitySelect (elements w)) ->
  exists w' sel,
    UI.renderCapabilitySelect S w = (Normal tt, w')
    /\ capabilitySelect (elements w') = Some sel
    /\ UI.options sel
       = Some (placeholder_option
                 :: map name_option (Object_keys (snapshot_at (heap w) S))).
Proof.
  intros [el Hel].
  unfold UI.renderCapabilitySelect, bind, get, modify, ret. rewrite Hel.
  eexists. eexists. split; [reflexivity|]. split; [reflexivity|].
  rewrite fold_appendOption. unfold UI.options. simpl select_innerHTML.
  rewrite placeholder_parsed. reflexivity.
Qed.

Lemma renderCapabilitySelect_options_witness :
  is_Some (capabilitySelect (elements sample_world))
  /\ exists w' sel,
       UI.renderCapabilitySelect 1 sample_world = (Normal tt, w')
       /\ capabilitySelect (elements w') = Some sel
       /\ UI.options sel = Some [placeholder_option; name_option "Data Migration"].
Proof.
  split; [by eexists|].
  apply (renderCapabilitySelect_options 1 sample_world). by eexists.
Defined.

(** *** The message area and its timers *)

Lemma classList_remove_absent (c : string) (l : list string) :
  c ∉ UI.classList_remove c l.
Proof. unfold UI.classList_remove. rewrite list_elem_of_filter. tauto. Qed.

Lemma shown_visible message type (w : World) :
  is_Some (messageDiv (elements w)) -> UI.visible (shown message type w) = true.
Proof.
  intros [el Hel]. unfold UI.visible.
  rewrite shown_messageDiv, Hel.
  change (negb (bool_decide
                  ("hidden" ∈ UI.classList_remove "hidden" (UI.className_set type)))
          = true).
  apply negb_true_iff, bool_decide_eq_false, classList_remove_absent.
Qed.

Lemma shown_timers message type (w : World) :
  is_Some (messageDiv (elements w)) ->
  timers (shown message type w) = timers w ++ [(clock w + UI.hide_delay)%N]
  /\ clock (shown message type w) = clock w.
Proof. intros [el Hel]. unfold shown. by rewrite Hel. Qed.

Lemma classList_add_present (c : string) (l : list string) :
  c ∈ UI.classList_add c l.
Proof.
  unfold UI.classList_add. case_bool_decide as Hin; [done|].
  apply elem_of_app. right. by left.
Qed.

Lemma hide_hidden (w : World) : UI.visible (UI.hide w) = false.
Proof.
  unfold UI.hide, UI.visible.
  destruct (messageDiv (elements w)) as [el|] eqn:E; [|by rewrite E].
  change (negb (bool_decide ("hidden" ∈ UI.classList_add "hidden" (classList el)))
          = false).
  apply negb_false_iff, bool_decide_eq_true, classList_add_present.
Qed.

Lemma hide_fold_hidden {A} (due : list A) (w : World) :
  UI.visible (fold_left (fun w _ => UI.hide w) due w)
  = UI.visible w && bool_decide (due = []).
Proof.
  revert w. induction due as [|d due IH]; intros w; simpl.
  - by rewrite andb_true_r.
  - rewrite IH, hide_hidden. simpl. by rewrite andb_false_r.
Qed.

Lemma run_until_visible (t : N) (w : World) :
  UI.visible (run_until t w)
  = UI.visible w && bool_decide (Forall (fun d => (t < d)%N) (timers w)).
Proof.
  unfold run_until.
  change (UI.visible (set_timers ?c ?ts ?x)) with (UI.visible x).
  rewrite hide_fold_hidden. f_equal.
  apply bool_decide_ext. split.
  - intros Hnil. apply Forall_forall. intros d Hd.
    destruct (decide (d <= t)%N) as [Hle|]; [|lia].
    assert (d ∈ filter (fun d => (d <= t)%N) (timers w)) as Hin
      by (by apply list_elem_of_filter).
    rewrite Hnil in Hin. by apply elem_of_nil in Hin.
  - intros Hall. induction Hall as [|d ds Hd _ IH]; [done|].
    rewrite filter_cons_False by lia. exact IH.
Qed.

(** C5 (as amended).  With the message area bound, every [showMessage]
    call makes the area visible at once and schedules one more hide
    5000 ms later, cancelling none of the hides already pending; after
    the call the area is visible at an instant exactly when no pending
    hide, the new one or an earlier one, is due by then.  So the message
    stays visible for the full 5000 ms when no earlier hide is pending. *)
Theorem showMessage_visible_until_first_hide message type (w : World) :
  is_Some (messageDiv (elements w)) ->
  let w' := (UI.showMessage message type w).2 in
  UI.visible w' = true
  /\ timers w' = timers w ++ [(clock w + 5000)%N]
  /\ (forall t, UI.visible (run_until t w') = true
                <-> (t < clock w + 5000)%N /\ Forall (fun d => (t < d)%N) (timers w))
  /\ (timers w = [] ->
      forall t, UI.visible (run_until t w') = true <-> (t < clock w + 5000)%N).
Proof.
  intros Hdiv. rewrite showMessage_run. simpl.
  destruct (shown_timers message type w Hdiv) as [Hts _].
  assert (Hall : forall t, UI.visible (run_until t (shown message type w)) = true
                 <-> (t < clock w + 5000)%N /\ Forall (fun d => (t < d)%N) (timers w)).
  { intros t. rewrite run_until_visible, shown_visible by done.
    rewrite andb_true_l, bool_decide_eq_true, Hts, Forall_app, Forall_singleton.
    unfold UI.hide_delay. tauto. }
  split; [by apply shown_visible|]. split; [exact Hts|]. split; [exact Hall|].
  intros Hnone t. rewrite Hall, Hnone. split; [tauto|]. intros H. split; [done|].
  constructor.
Qed.

Lemma showMessage_visible_until_first_hide_witness :
  is_Some (messageDiv (elements sample_world))
  /\ (let w' := (UI.showMessage (Some "Registered") "success" sample_world).2 in
      UI.visible w' = true
      /\ timers w' = timers sample_world ++ [(clock sample_world + 5000)%N]
      /\ (forall t, UI.visible (run_until t w') = true
                    <-> (t < clock sample_world + 5000)%N
                        /\ Forall (fun d => (t < d)%N) (timers sample_world))
      /\ (timers sample_world = [] ->
          forall t, UI.visible (run_until t w') = true
                    <-> (t < clock sample_world + 5000)%N)).
Proof.
  split; [by eexists|].
  apply (showMessage_visible_until_first_hide (Some "Registered") "success" sample_world).
  by eexists.
Defined.

(** C5 as stated does not hold: a first message at 0 ms and a second at
    3000 ms leave the second one hidden at 5000 ms, 2000 ms after it was
    shown, because the first call's timer still fires. *)
Lemma showMessage_earlier_hide_fires :
  (let w1 := (UI.showMessage (Some "first") "success" sample_world).2 in
   let w2 := (UI.showMessage (Some "second") "success" (run_until 3000 w1)).2 in
   clock w2 = 3000%N
   /\ UI.visible w2 = true
   /\ (5000 < clock w2 + UI.hide_delay)%N
   /\ UI.visible (run_until 5000 w2) = false)
  /\ ~ hide_timer_restarts.
Proof.
  split; [by vm_compute|].
  intros H.
  specialize (H (Some "second") "success"
                (run_until 3000 (UI.showMessage (Some "first") "success" sample_world).2)
                5000%N).
  assert (Hv : UI.visible
                 (run_until 5000
                    (UI.showMessage (Some "second") "success"
                       (run_until 3000
                          (UI.showMessage (Some "first") "success" sample_world).2)).2)
               = false) by (by vm_compute).
  rewrite H in Hv; [done | vm_compute; eauto | by vm_compute].
Qed.

(** *** Page anchors *)

(** X19.  With the form present [UI.init] completes and every handle is
    what the page has under its id, null for an absent anchor; the form
    has received the submit listener. *)
Lemma UI_init_binds (document : Document) (w : World) (form : FormEl) :
  el_register_form document = Some form ->
  exists w',
    UI.init document w = (Normal tt, w')
    /\ capabilitiesList (elements w') = el_capabilities_list document
    /\ capabilitySelect (elements w') = el_capability document
    /\ messageDiv (elements w') = el_message document
    /\ registerForm (elements w')
       = Some {| form_listeners := form_listeners form ++ [SubmitRegister] |}.
Proof.
  intros Hform. unfold UI.init, bind, modify, get. simpl. rewrite Hform.
  by eexists.
Qed.

(** X20.  The render and message methods do nothing on a null handle:
    each completes and leaves the world as it was. *)
Lemma null_handle_noop (w : World) :
  (capabilitiesList (elements w) = None ->
   (forall S, UI.renderCapabilities S w = (Normal tt, w))
   /\ (forall text, UI.showError text w = (Normal tt, w)))
  /\ (capabilitySelect (elements w) = None ->
      forall S, UI.renderCapabilitySelect S w = (Normal tt, w))
  /\ (messageDiv (elements w) = None ->
      forall text type, UI.showMessage text type w = (Normal tt, w)).
Proof.
  unfold UI.renderCapabilities, UI.showError, UI.renderCapabilitySelect,
    UI.showMessage, bind, get, ret.
  split; [|split]; intros Hnull; [split|..]; intros; by rewrite Hnull.
Qed.

(** C4 (the code departs from it).  On a page without the registration
    form [UI.init] does not fail silently: after binding the handles it
    dereferences the null form handle and throws, so the page-load
    handler is abandoned before any capability is requested. *)
Theorem UI_init_throws_without_form (document : Document) (w : World) :
  el_register_form document = None ->
  (exists w',
     UI.init document w = (Throw TypeError, w')
     /\ registerForm (elements w') = None)
  /\ (forall net, exists w',
        on_DOMContentLoaded document net w = (Throw TypeError, w')
        /\ requests w' = requests w).
Proof.
  intros Hform.
  assert (Hinit : UI.init document w
                  = (Throw TypeError,
                     set_elements
                       {| capabilitiesList := el_capabilities_list document;
                          capabilitySelect := el_capability document;
                          registerForm := el_register_form document;
                          messageDiv := el_message document |} w)).
  { unfold UI.init, bind, modify, get. simpl. by rewrite Hform. }
  split.
  - eexists. split; [exact Hinit | exact Hform].
  - intros net. unfold on_DOMContentLoaded, bind. rewrite Hinit. by eexists.
Qed.

Lemma UI_init_throws_without_form_witness :
  el_register_form formless_document = None
  /\ (exists w',
        UI.init formless_document initial_world = (Throw TypeError, w')
        /\ registerForm (elements w') = None)
  /\ (forall net, exists w',
        on_DOMContentLoaded formless_document net initial_world = (Throw TypeError, w')
        /\ requests w' = requests initial_world).
Proof.
  split; [reflexivity|].
  apply (UI_init_throws_without_form formless_document initial_world). reflexivity.
Defined.

(** *** Loading the snapshot *)

Lemma fetchCapabilities_failure_run net (w : World) :
  fetch_failure net ->
  exists e,
    AppState.fetchCapabilities net w
    = (Normal tt,
       failed "Failed to load capabilities. Please try again later."
         (log_error "Error fetching capabilities:" e
            (log_request "GET" "/capabilities" w))).
Proof.
  intros [-> | [o ->]]; [exists FetchFailed | exists SyntaxError];
    unfold AppState.fetchCapabilities, try_catch, bind at 1 2 3, fetch, json, throw;
    unfold bind at 1, modify; simpl; unfold bind; by rewrite showError_run.
Qed.

(** C8.  A failure of the read request (rejected fetch, or a body that
    is not JSON) never leaves [fetchCapabilities], nor [init], as an
    exception: the call completes, one entry is added to the error log,
    the list container (when the page has one) shows only the generic
    error paragraph, and the stored snapshot is the object it was, in an
    untouched store.  At page load the snapshot therefore remains the
    initial empty mapping. *)
Theorem fetchCapabilities_failure_contained net (w : World) :
  fetch_failure net ->
  (exists e w',
     AppState.fetchCapabilities net w = (Normal tt, w')
     /\ AppState.init net w = (Normal tt, w')
     /\ console w' = console w ++ [("Error fetching capabilities:", e)]
     /\ capabilitiesList (elements w')
        = (fun _ => load_error) <$> capabilitiesList (elements w)
     /\ capabilities w' = capabilities w
     /\ heap w' = heap w)
  /\ (forall document, exists r w',
        on_DOMContentLoaded document net initial_world = (r, w')
        /\ capabilities w' = capabilities initial_world
        /\ heap w' = heap initial_world
        /\ snapshot w' = []).
Proof.
  intros Hfail. split.
  - destruct (fetchCapabilities_failure_run net w Hfail) as [e He].
    exists e. eexists. split; [exact He|]. split; [exact He|]. done.
  - intros document. unfold on_DOMContentLoaded, bind.
    destruct (UI.init document initial_world) as [[[]|e] w1] eqn:Hinit.
    + assert (capabilities w1 = 0 /\ heap w1 = [Snapshot []]) as [Hc Hh].
      { revert Hinit. unfold UI.init, bind, modify, get. simpl.
        destruct (el_register_form document); intros [= <-]; done. }
      unfold AppState.init.
      destruct (fetchCapabilities_failure_run net w1 Hfail) as [e He].
      rewrite He. eexists. eexists. split; [done|]. simpl.
      unfold snapshot. simpl. by rewrite Hc, Hh.
    + assert (capabilities w1 = 0 /\ heap w1 = [Snapshot []]) as [Hc Hh].
      { revert Hinit. unfold UI.init, bind, modify, get, throw. simpl.
        destruct (el_register_form document); intros [= <- <-]; done. }
      eexists. eexists. split; [done|]. unfold snapshot. by rewrite Hc, Hh.
Qed.

Lemma fetchCapabilities_failure_contained_witness :
  fetch_failure (@Rejected (list (string * Capability)))
  /\ exists e w',
       AppState.fetchCapabilities Rejected sample_world = (Normal tt, w')
       /\ AppState.init Rejected sample_world = (Normal tt, w')
       /\ console w' = console sample_world ++ [("Error fetching capabilities:", e)]
       /\ capabilitiesList (elements w')
          = (fun _ => load_error) <$> capabilitiesList (elements sample_world)
       /\ capabilities w' = capabilities sample_world
       /\ heap w' = heap sample_world.
Proof.
  split; [by left|].
  apply (fetchCapabilities_failure_contained Rejected sample_world). by left.
Defined.

(** *** Capability cards

    The removal controls of a card are the matches of a class query on
    the parse of its markup.  The query is followed piece by piece along
    the template: [feed] composes over concatenation, closed pieces are
    computed, and an interpolated string is skipped as text or taken
    whole as an attribute value provided it is markup-free. *)

Lemma run_app (m : HTML.mode) (s1 s2 : string) :
  HTML.run m (s1 +:+ s2)
  = ((HTML.run (HTML.run m s1).1 s2).1,
     (HTML.run m s1).2 ++ (HTML.run (HTML.run m s1).1 s2).2).
Proof.
  revert m. induction s1 as [|c s1 IH]; intros m.
  - change ("" +:+ s2) with s2. simpl. by destruct (HTML.run m s2).
  - change (String c s1 +:+ s2) with (String c (s1 +:+ s2)). simpl.
    rewrite IH. simpl. by rewrite app_assoc.
Qed.

Lemma abs_steps_app cls (st : list aframe) (ts1 ts2 : list HTML.token) :
  abs_steps cls st (ts1 ++ ts2)
  = abs_steps cls st ts1 ≫= fun st1 => abs_steps cls st1 ts2.
Proof.
  revert st. induction ts1 as [|t ts1 IH]; intros st; simpl; [done|].
  destruct (abs_step cls st t); [apply IH | done].
Qed.

Lemma feed_app cls st (s1 s2 : string) st1 st2 :
  feed cls st s1 = Some st1 ->
  feed cls st1 s2 = Some st2 ->
  feed cls st (s1 +:+ s2) = Some st2.
Proof.
  unfold feed. intros H1 H2. rewrite run_app. simpl.
  rewrite abs_steps_app.
  destruct (abs_steps cls st.2 (HTML.run st.1 s1).2) as [x|]; [|done].
  simpl in *. injection H1 as <-. simpl in H2.
  destruct (abs_steps cls x (HTML.run (HTML.run st.1 s1).1 s2).2); [|done].
  simpl in *. by injection H2 as <-.
Qed.

Lemma text_char_step (c : ascii) :
  text_char c = true -> HTML.step HTML.Data c = (HTML.Data, [HTML.TChar c]).
Proof.
  unfold text_char, HTML.step, HTML.data. intros H.
  apply negb_true_iff in H. apply orb_false_iff in H as [H1 H3].
  apply orb_false_iff in H1 as [H1 H2]. by rewrite H3, H2, H1.
Qed.

Lemma feed_text cls top below (s : string) :
  string_forall text_char s = true ->
  feed cls (HTML.Data, top :: below) s = Some (HTML.Data, top :: below).
Proof.
  unfold feed. simpl. induction s as [|c s IH]; simpl; [done|].
  intros H. apply andb_true_iff in H as [Hc Hs].
  rewrite (text_char_step c Hc). simpl. by apply IH.
Qed.

Lemma attr_char_step (c : ascii) t n v :
  attr_char c = true ->
  HTML.step (HTML.AttrValueDQ t n v) c = (HTML.AttrValueDQ t n (HTML.snoc v c), []).
Proof.
  unfold attr_char, HTML.step, HTML.attr_value_quoted. intros H.
  apply negb_true_iff in H. apply orb_false_iff in H as [H1 H3].
  apply orb_false_iff in H1 as [H1 H2]. by rewrite H3, H2, H1.
Qed.

Lemma snoc_append (v : string) (c : ascii) (s : string) :
  HTML.snoc v c +:+ s = v +:+ String c s.
Proof.
  unfold HTML.snoc. induction v as [|x v IH]; [done|].
  change (String x ((v +:+ String c "") +:+ s) = String x (v +:+ String c s)).
  by rewrite IH.
Qed.

Lemma feed_attr cls st t n v (s : string) :
  string_forall attr_char s = true ->
  feed cls (HTML.AttrValueDQ t n v, st) s = Some (HTML.AttrValueDQ t n (v +:+ s), st).
Proof.
  unfold feed. simpl. revert v. induction s as [|c s IH]; intros v; simpl.
  - intros _. do 3 f_equal. induction v as [|x v IH]; [done|].
    change (String x v = String x (v +:+ "")). by rewrite <- IH.
  - intros H. apply andb_true_iff in H as [Hc Hs].
    rewrite (attr_char_step c t n v Hc). simpl.
    specialize (IH (HTML.snoc v c) Hs). rewrite snoc_append in IH. exact IH.
Qed.

(** The class query on the tree under construction is the abstract run. *)
Lemma query_class_snoc cls (ns : list HTML.node) (n : HTML.node) :
  HTML.query_class cls (ns ++ [n]) = HTML.query_class cls ns ++ HTML.select_class cls n.
Proof.
  unfold HTML.query_class. rewrite flat_map_app. simpl. by rewrite app_nil_r.
Qed.

Lemma abstract_add_char cls (c : ascii) (f : HTML.frame) :
  abstract cls (HTML.add_char c f) = abstract cls f.
Proof.
  destruct f as [[name a] kids]. unfold HTML.add_char, abstract.
  destruct kids as [|[s|n' a' k'] kids]; simpl;
    rewrite ?query_class_snoc; simpl; by rewrite ?app_nil_r.
Qed.

Lemma abstract_names cls (stack : list HTML.frame) :
  map (fun f : aframe => f.1.1) (map (abstract cls) stack) = map HTML.frame_name stack.
Proof.
  induction stack as [|[[n a] k] stack IH]; simpl; [done | by rewrite IH].
Qed.

Lemma abs_step_sim cls (stack : list HTML.frame) (t : HTML.token) :
  abs_step cls (map (abstract cls) stack) t
  = map (abstract cls) <$> HTML.build_step stack t.
Proof.
  destruct stack as [|top below]; [done|].
  destruct t as [c|[[] name a sc]].
  - simpl. by rewrite abstract_add_char.
  - destruct below as [|parent rest]; [by destruct top as [[? ?] ?]|].
    destruct top as [[n ta] kids], parent as [[pn pa] pkids]. simpl.
    unfold HTML.frame_name. simpl.
    destruct (String.eqb name n); [|done]. simpl.
    by rewrite query_class_snoc.
  - destruct sc; [by destruct top as [[? ?] ?]|].
    unfold abs_step, HTML.build_step.
    change (map (abstract cls) (top :: below))
      with (abstract cls top :: map (abstract cls) below).
    rewrite <- (abstract_names cls (top :: below)).
    change (map (abstract cls) (top :: below))
      with (abstract cls top :: map (abstract cls) below).
    replace (abstract cls top).1.1 with (HTML.frame_name top)
      by (by destruct top as [[? ?] ?]).
    by destruct (_ && _).
Qed.

Lemma build_sim cls (stack : list HTML.frame) (ts : list HTML.token) :
  HTML.query_class cls <$> HTML.build stack ts
  = abs_steps cls (map (abstract cls) stack) ts ≫= found_of.
Proof.
  revert stack. induction ts as [|t ts IH]; intros stack; simpl.
  - destruct stack as [|[[n a] kids] [|? ?]]; done.
  - rewrite abs_step_sim.
    destruct (HTML.build_step stack t) as [stack'|]; simpl; [apply IH | done].
Qed.

Lemma feed_sound cls (ctx : string) (s : string) n a found :
  feed cls (HTML.Data, [(ctx, [], [])]) s = Some (HTML.Data, [(n, a, found)]) ->
  HTML.query_class cls <$> HTML.parse_fragment ctx s = Some found.
Proof.
  unfold feed, HTML.parse_fragment, HTML.tokenize. simpl.
  destruct (HTML.run HTML.Data s) as [m ts]. simpl.
  destruct (abs_steps cls [(ctx, [], [])] ts) as [st|] eqn:E; [|done].
  simpl. intros [= -> ->].
  rewrite build_sim.
  exact (f_equal (fun x => x ≫= found_of) E).
Qed.

(** Pieces of the card template. *)
Lemma feed_attr_start cls st t n (s : string) :
  string_forall attr_char s = true ->
  feed cls (HTML.AttrValueDQ t n "", st) s = Some (HTML.AttrValueDQ t n s, st).
Proof. apply feed_attr. Qed.

Lemma markup_free_text (s : string) : markup_free s = true -> string_forall text_char s = true.
Proof. unfold markup_free. by intros [? ?]%andb_true_iff. Qed.

Lemma markup_free_attr (s : string) : markup_free s = true -> string_forall attr_char s = true.
Proof. unfold markup_free. by intros [? ?]%andb_true_iff. Qed.

Ltac feed_segment :=
  first [ apply feed_text; solve [auto using markup_free_text]
        | apply feed_attr_start; solve [auto using markup_free_attr]
        | unfold feed; cbn; reflexivity ].

Ltac feed_chain := repeat (eapply feed_app; [feed_segment|]); feed_segment.

Lemma feed_item (name email : string) A found a1 f1 a2 f2 a3 f3 :
  markup_free name = true ->
  markup_free email = true ->
  feed "delete-btn"
       (HTML.Data, [("ul", A, found); ("div", a1, f1); ("div", a2, f2); ("div", a3, f3)])
       (UI.consultant_item name email)
  = Some (HTML.Data,
          [("ul", A, found ++ [removal_control name email]);
           ("div", a1, f1); ("div", a2, f2); ("div", a3, f3)]).
Proof.
  intros Hname Hemail. unfold UI.consultant_item.
  feed_chain.
Qed.

Lemma feed_nil cls st : feed cls st "" = Some st.
Proof. by destruct st. Qed.

Lemma join_cons (x : string) (rest : list string) :
  join "" (x :: rest) = x +:+ join "" rest.
Proof.
  destruct rest as [|y rest]; [|done].
  simpl. induction x as [|c x IH]; [done|].
  change (String c x = String c (x +:+ "")). by rewrite <- IH.
Qed.

Lemma feed_items (name : string) (emails : list string) A found a1 f1 a2 f2 a3 f3 :
  markup_free name = true ->
  forallb markup_free emails = true ->
  feed "delete-btn"
       (HTML.Data, [("ul", A, found); ("div", a1, f1); ("div", a2, f2); ("div", a3, f3)])
       (join "" (map (UI.consultant_item name) emails))
  = Some (HTML.Data,
          [("ul", A, found ++ map (removal_control name) emails);
           ("div", a1, f1); ("div", a2, f2); ("div", a3, f3)]).
Proof.
  intros Hname. revert found.
  induction emails as [|email emails IH]; intros found Hemails.
  - simpl. by rewrite app_nil_r.
  - apply andb_true_iff in Hemails as [Hemail Hemails].
    change (map (UI.consultant_item name) (email :: emails))
      with (UI.consultant_item name email :: map (UI.consultant_item name) emails).
    rewrite join_cons.
    eapply feed_app; [by apply feed_item|].
    rewrite (IH _ Hemails). simpl. by rewrite <- app_assoc.
Qed.

(** Printed numbers are text. *)
Lemma pretty_N_char_text (x : N) : text_char (pretty_N_char x) = true.
Proof. unfold pretty_N_char. by repeat case_match. Qed.

Lemma pretty_N_go_text (x : N) (s : string) :
  string_forall text_char s = true -> string_forall text_char (pretty_N_go x s) = true.
Proof.
  revert s. induction (N.lt_wf_0 x) as [x _ IH]; intros s Hs.
  destruct (decide (x = 0)%N) as [->|Hx]; [by rewrite pretty_N_go_0|].
  rewrite pretty_N_go_step by lia.
  apply IH; [apply N.div_lt; lia|]. simpl. by rewrite pretty_N_char_text.
Qed.

Lemma pretty_N_text (x : N) : string_forall text_char (pretty x) = true.
Proof.
  unfold pretty, pretty_N. case_decide; [done | by apply pretty_N_go_text].
Qed.

Lemma pretty_nat_text (n : nat) : string_forall text_char (pretty n) = true.
Proof. apply pretty_N_text. Qed.

Lemma pretty_Z_text (z : Z) : string_forall text_char (pretty z) = true.
Proof.
  destruct z as [|p|p]; [done | apply (pretty_N_text (Npos p)) |].
  change (string_forall text_char (String "-" (pretty (Npos p))) = true).
  simpl. apply (pretty_N_text (Npos p)).
Qed.

Lemma string_forall_app p (s1 s2 : string) :
  string_forall p s1 = true -> string_forall p s2 = true ->
  string_forall p (s1 +:+ s2) = true.
Proof.
  intros H1 H2. induction s1 as [|c s1 IH]; [done|].
  change (string_forall p (String c (s1 +:+ s2)) = true).
  simpl in *. apply andb_true_iff in H1 as [-> H1]. by apply IH.
Qed.

Lemma join_comma_text (vs : list string) :
  forallb markup_free vs = true -> string_forall text_char (join ", " vs) = true.
Proof.
  induction vs as [|v vs IH]; [done|]. intros [Hv Hvs]%andb_true_iff.
  apply markup_free_text in Hv.
  destruct vs as [|v' vs]; [done|].
  change (string_forall text_char (v +:+ ", " +:+ join ", " (v' :: vs)) = true).
  apply string_forall_app; [done|]. apply string_forall_app; [done | by apply IH].
Qed.

Lemma feed_consultantsHTML (name : string) (details : Capability) a2 a3 f3 :
  markup_free name = true ->
  forallb markup_free (default [] (consultants details)) = true ->
  feed "delete-btn" (HTML.Data, [("div", a2, []); ("div", a3, f3)])
       (UI.consultantsHTML name details)
  = Some (HTML.Data,
          [("div", a2, map (removal_control name) (default [] (consultants details)));
           ("div", a3, f3)]).
Proof.
  intros Hname Hemails. unfold UI.consultantsHTML.
  destruct (consultants details) as [[|e es]|]; [reflexivity | | reflexivity].
  simpl default in *.
  repeat (eapply feed_app;
          [first [ by apply feed_items | feed_segment ]|]).
  feed_segment.
Qed.

Lemma feed_card_markup (name : string) (details : Capability) :
  markup_free name = true ->
  markup_free_capability details = true ->
  feed "delete-btn" (HTML.Data, [("div", [], [])]) (UI.card_markup name details)
  = Some (HTML.Data,
          [("div", [], map (removal_control name) (default [] (consultants details)))]).
Proof.
  intros Hname Hdetails. unfold markup_free_capability in Hdetails.
  apply andb_true_iff in Hdetails as [Hdetails Hemails].
  apply andb_true_iff in Hdetails as [Hdetails Hverticals].
  apply andb_true_iff in Hdetails as [Hdescription Hpractice].
  pose proof (pretty_Z_text (UI.availableCapacity details)) as Hcapacity.
  pose proof (pretty_nat_text (UI.currentConsultants details)) as Hcount.
  assert (Hjoined : string_forall text_char
                      match industry_verticals details with
                      | Some vs => join ", " vs
                      | None => "Not specified"
                      end = true).
  { destruct (industry_verticals details); [by apply join_comma_text | done]. }
  unfold UI.card_markup.
  repeat (eapply feed_app;
          [first [ by apply feed_consultantsHTML
                 | apply feed_text; assumption
                 | feed_segment ]|]).
  feed_segment.
Qed.

(** X18.  On markup-free fields the card has exactly one removal control per
    consultant, in order, carrying the capability name and that
    consultant's email; with no consultant (empty or missing array) it
    has none and shows the placeholder paragraph. *)
Theorem card_controls_markup_free (name : string) (details : Capability) :
  markup_free name = true ->
  markup_free_capability details = true ->
  card_delete_btns (UI.createCapabilityCard name details)
  = Some (map (removal_control name) (default [] (consultants details))).
Proof.
  intros Hname Hdetails. unfold UI.createCapabilityCard, UI.delete_btns. simpl.
  eapply feed_sound. by apply feed_card_markup.
Qed.

Lemma card_placeholder (name : string) (details : Capability) :
  default [] (consultants details) = [] ->
  UI.consultantsHTML name details = "<p><em>No consultants registered yet</em></p>".
Proof. unfold UI.consultantsHTML. by destruct (consultants details) as [[|? ?]|]. Qed.

Example card_of_sample :
  card_delete_btns (UI.createCapabilityCard "Data Migration" sample_capability)
  = Some [[("class", "delete-btn"); ("data-capability", "Data Migration");
           ("data-email", "a@x.com")]].
Proof. by vm_compute. Qed.

(** C7 (the code departs from it).  The card interpolates the
    capability name into the [data-capability] attribute unescaped.  For
    the capability named [quoted_name] (19, a double quote,
    then Rack Provisioning) with the single
    consultant [a@x.com], the one removal control that is rendered
    carries the capability [19], which is not the capability of the
    card: the double quote ended the attribute value. *)
Theorem createCapabilityCard_quote_cuts_capability :
  consultants sample_capability = Some ["a@x.com"]
  /\ exists btn,
       card_delete_btns (UI.createCapabilityCard quoted_name sample_capability)
       = Some [btn]
       /\ HTML.get_attr "data-capability" btn = Some "19"
       /\ HTML.get_attr "data-email" btn = Some "a@x.com"
       /\ "19" <> quoted_name.
Proof.
  split; [reflexivity|]. eexists. split; [by vm_compute|]. by vm_compute.
Qed.

(** ** Further properties *)

(** *** Every outcome of a write *)

Lemma consultants_of_Some (w : World) capability old :
  consultants_of (heap w) (capabilities w) capability = Some old ->
  exists lc c, obj_get capability (snapshot w) = Some lc
               /\ capability_at (heap w) lc = Some c
               /\ consultants c = Some old.
Proof.
  unfold consultants_of, snapshot.
  destruct (obj_get capability _) as [lc|] eqn:Hlc; [|done]. simpl.
  destruct (capability_at (heap w) lc) as [c|] eqn:Hc; [|done]. simpl.
  intros H. by exists lc, c.
Qed.

Lemma replace_consultants_None capability E (w : World) :
  consultants_of (heap w) (capabilities w) capability = None ->
  AppState.replace_consultants capability E w = (Throw TypeError, w).
Proof.
  unfold consultants_of, AppState.replace_consultants, bind, get.
  destruct (obj_get capability _) as [lc|]; [|done]. simpl.
  destruct (capability_at (heap w) lc) as [c|]; [|done]. simpl.
  by intros ->.
Qed.

(** The world a write that fails leaves: the request and, for a thrown
    error, the log entry; then the error message. *)
Lemma registerConsultant_run capability email net (w : World) :
  let w0 := log_request "POST" (register_url capability email) w in
  AppState.registerConsultant capability email net w
  = match net with
    | Rejected =>
        (Normal false,
         shown (Some register_failed) "error" (log_error "Error registering:" FetchFailed w0))
    | Responded _ None =>
        (Normal false,
         shown (Some register_failed) "error" (log_error "Error registering:" SyntaxError w0))
    | Responded false (Some reply) =>
        (Normal false,
         shown (Some (AppState.or_else (detail reply) "An error occurred")) "error" w0)
    | Responded true (Some reply) =>
        match capability_of w capability with
        | Some c =>
            match consultants c with
            | Some old =>
                (Normal true,
                 shown (message reply) "success"
                   (rendered (replaced capability (with_consultants c (old ++ [email])) w0)))
            | None =>
                (Normal false,
                 shown (Some register_failed) "error"
                   (log_error "Error registering:" TypeError w0))
            end
        | None =>
            (Normal false,
             shown (Some register_failed) "error"
               (log_error "Error registering:" TypeError w0))
        end
    end.
Proof.
  intros w0. destruct net as [|[] [reply|]].
  - unfold AppState.registerConsultant, try_catch, bind at 1 2 3, fetch, json, throw.
    unfold bind at 1, modify. simpl. unfold bind. by rewrite showMessage_run.
  - unfold capability_of.
    destruct (obj_get capability (snapshot w)) as [lc|] eqn:Hlc; simpl;
      [destruct (capability_at (heap w) lc) as [c|] eqn:Hc; simpl;
       [destruct (consultants c) as [old|] eqn:Hold|]|].
    + by apply registerConsultant_ok_run with (lc := lc).
    + unfold AppState.registerConsultant, try_catch, bind at 1 2 3, fetch, json.
      unfold bind at 1, modify, ret. simpl. unfold bind at 1.
      rewrite (replace_consultants_None capability _ (log_request _ _ w)).
      * unfold bind. simpl. by rewrite showMessage_run.
      * unfold consultants_of. simpl. fold (snapshot w). rewrite Hlc. simpl.
        rewrite Hc. simpl. done.
    + unfold AppState.registerConsultant, try_catch, bind at 1 2 3, fetch, json.
      unfold bind at 1, modify, ret. simpl. unfold bind at 1.
      rewrite (replace_consultants_None capability _ (log_request _ _ w)).
      * unfold bind. simpl. by rewrite showMessage_run.
      * unfold consultants_of. simpl. fold (snapshot w). rewrite Hlc. simpl.
        by rewrite Hc.
    + unfold AppState.registerConsultant, try_catch, bind at 1 2 3, fetch, json.
      unfold bind at 1, modify, ret. simpl. unfold bind at 1.
      rewrite (replace_consultants_None capability _ (log_request _ _ w)).
      * unfold bind. simpl. by rewrite showMessage_run.
      * unfold consultants_of. simpl. fold (snapshot w). by rewrite Hlc.
  - unfold AppState.registerConsultant, try_catch, bind at 1 2 3, fetch, json, throw.
    unfold bind at 1, modify. simpl. unfold bind. by rewrite showMessage_run.
  - unfold AppState.registerConsultant, try_catch, bind at 1 2 3, fetch, json.
    unfold bind at 1, modify, ret. simpl. unfold bind. by rewrite showMessage_run.
  - unfold AppState.registerConsultant, try_catch, bind at 1 2 3, fetch, json, throw.
    unfold bind at 1, modify. simpl. unfold bind. by rewrite showMessage_run.
Qed.

Lemma unregisterConsultant_run capability email net (w : World) :
  let w0 := log_request "DELETE" (unregister_url capability email) w in
  AppState.unregisterConsultant capability email net w
  = match net with
    | Rejected =>
        (Normal tt,
         shown (Some unregister_failed) "error"
           (log_error "Error unregistering:" FetchFailed w0))
    | Responded _ None =>
        (Normal tt,
         shown (Some unregister_failed) "error"
           (log_error "Error unregistering:" SyntaxError w0))
    | Responded false (Some reply) =>
        (Normal tt,
         shown (Some (AppState.or_else (detail reply) "An error occurred")) "error" w0)
    | Responded true (Some reply) =>
        match capability_of w capability with
        | Some c =>
            match consultants c with
            | Some old =>
                (Normal tt,
                 shown (message reply) "success"
                   (rendered (replaced capability
                                (with_consultants c (filter (fun x => x <> email) old)) w0)))
            | None =>
                (Normal tt,
                 shown (Some unregister_failed) "error"
                   (log_error "Error unregistering:" TypeError w0))
            end
        | None =>
            (Normal tt,
             shown (Some unregister_failed) "error"
               (log_error "Error unregistering:" TypeError w0))
        end
    end.
Proof.
  intros w0. destruct net as [|[] [reply|]].
  - unfold AppState.unregisterConsultant, try_catch, bind at 1 2 3, fetch, json, throw.
    unfold bind at 1, modify. simpl. unfold bind. by rewrite showMessage_run.
  - unfold capability_of.
    destruct (obj_get capability (snapshot w)) as [lc|] eqn:Hlc; simpl;
      [destruct (capability_at (heap w) lc) as [c|] eqn:Hc; simpl;
       [destruct (consultants c) as [old|] eqn:Hold|]|].
    + by apply unregisterConsultant_ok_run with (lc := lc).
    + unfold AppState.unregisterConsultant, try_catch, bind at 1 2 3, fetch, json.
      unfold bind at 1, modify, ret. simpl. unfold bind at 1.
      rewrite (replace_consultants_None capability _ (log_request _ _ w)).
      * unfold bind. simpl. by rewrite showMessage_run.
      * unfold consultants_of. simpl. fold (snapshot w). rewrite Hlc. simpl.
        rewrite Hc. simpl. done.
    + unfold AppState.unregisterConsultant, try_catch, bind at 1 2 3, fetch, json.
      unfold bind at 1, modify, ret. simpl. unfold bind at 1.
      rewrite (replace_consultants_None capability _ (log_request _ _ w)).
      * unfold bind. simpl. by rewrite showMessage_run.
      * unfold consultants_of. simpl. fold (snapshot w). rewrite Hlc. simpl.
        by rewrite Hc.
    + unfold AppState.unregisterConsultant, try_catch, bind at 1 2 3, fetch, json.
      unfold bind at 1, modify, ret. simpl. unfold bind at 1.
      rewrite (replace_consultants_None capability _ (log_request _ _ w)).
      * unfold bind. simpl. by rewrite showMessage_run.
      * unfold consultants_of. simpl. fold (snapshot w). by rewrite Hlc.
  - unfold AppState.unregisterConsultant, try_catch, bind at 1 2 3, fetch, json, throw.
    unfold bind at 1, modify. simpl. unfold bind. by rewrite showMessage_run.
  - unfold AppState.unregisterConsultant, try_catch, bind at 1 2 3, fetch, json.
    unfold bind at 1, modify, ret. simpl. by rewrite showMessage_run.
  - unfold AppState.unregisterConsultant, try_catch, bind at 1 2 3, fetch, json, throw.
    unfold bind at 1, modify. simpl. unfold bind. by rewrite showMessage_run.
Qed.

(** Facts about the worlds of a write. *)

Lemma capability_of_consultants (w : World) capability :
  consultants_of (heap w) (capabilities w) capability
  = capability_of w capability ≫= consultants.
Proof.
  unfold consultants_of, capability_of, snapshot.
  destruct (obj_get capability _); [|done]. simpl.
  by destruct (capability_at (heap w) l).
Qed.

Lemma shown_heap message type (w : World) : heap (shown message type w) = heap w.
Proof. by destruct (shown_store message type w). Qed.

Lemma shown_capabilities message type (w : World) :
  capabilities (shown message type w) = capabilities w.
Proof. by destruct (shown_store message type w). Qed.


Lemma shown_capability_of message type (w : World) name :
  capability_of (shown message type w) name = capability_of w name.
Proof. unfold capability_of. by rewrite shown_snapshot, shown_heap. Qed.

Lemma capability_of_live (w : World) name c :
  capability_of w name = Some c ->
  exists lc, obj_get name (snapshot w) = Some lc /\ capability_at (heap w) lc = Some c.
Proof.
  unfold capability_of. destruct (obj_get name (snapshot w)) as [lc|]; [|done].
  simpl. intros H. by exists lc.
Qed.

Lemma capability_at_old (h ext : list cell) (l : loc) c :
  capability_at h l = Some c -> capability_at (h ++ ext) l = Some c.
Proof.
  unfold capability_at. destruct (h !! l) as [x|] eqn:E; [|done].
  intros H. by rewrite (lookup_app_l_Some _ _ _ _ E).
Qed.

Lemma replaced_capability_of capability new (w : World) :
  capability_of (replaced capability new w) capability = Some new.
Proof.
  unfold capability_of. rewrite replaced_snapshot, obj_get_set_eq. simpl.
  unfold capability_at. rewrite lookup_app_r by lia. by rewrite Nat.sub_diag.
Qed.


(** X2.  [unregisterConsultant] never throws: for every response and
    every argument it completes; when the response is ok with a JSON
    body and the capability has a consultants array, the array loses
    every entry equal to the email, and in every other case the
    snapshot object and the store are untouched. *)
Theorem unregisterConsultant_result capability email net (w : World) :
  exists w',
    AppState.unregisterConsultant capability email net w = (Normal tt, w')
    /\ ((exists reply, net = Responded true (Some reply))
        /\ is_Some (consultants_of (heap w) (capabilities w) capability) ->
        exists old,
          consultants_of (heap w) (capabilities w) capability = Some old
          /\ consultants_of (heap w') (capabilities w') capability
             = Some (filter (fun x => x <> email) old))
    /\ (~ ((exists reply, net = Responded true (Some reply))
           /\ is_Some (consultants_of (heap w) (capabilities w) capability)) ->
        capabilities w' = capabilities w /\ heap w' = heap w).
Proof.
  rewrite unregisterConsultant_run, capability_of_consultants.
  destruct net as [|[] [reply|]];
    try (eexists; split; [reflexivity|];
         rewrite shown_heap, shown_capabilities;
         split; [by intros [[? ?] _] | done]).
  destruct (capability_of w capability) as [c|] eqn:Hc; simpl;
    [destruct (consultants c) as [old|] eqn:Hold|].
  - eexists. split; [reflexivity|]. split.
    + intros _. exists old. split; [done|].
      rewrite shown_heap, shown_capabilities.
      change (heap (rendered ?x)) with (heap x).
      change (capabilities (rendered ?x)) with (capabilities x).
      by rewrite (replaced_consultants capability _ (log_request _ _ w)).
    + intros Hnot. destruct Hnot. split; by eexists.
  - eexists. split; [reflexivity|]. rewrite shown_heap, shown_capabilities.
    split; [by intros [_ [? ?]] | done].
  - eexists. split; [reflexivity|]. rewrite shown_heap, shown_capabilities.
    split; [by intros [_ [? ?]] | done].
Qed.

Lemma failed_requests message (w : World) : requests (failed message w) = requests w.
Proof. done. Qed.


Lemma shown_message_area text type (w : World) el :
  messageDiv (elements w) = Some el ->
  UI.classList_remove "hidden" (UI.className_set type) = [type] ->
  messageDiv (elements (shown (Some text) type w)) = Some (message_shown text type).
Proof. intros Hel Hcl. rewrite shown_messageDiv, Hel. simpl. by rewrite Hcl. Qed.

(** X6.  What the user is told when a write fails, with the message
    area bound.  On a non-ok JSON response the area shows the reply's
    [detail] when it is a non-empty string and "An error occurred"
    otherwise, with class error, and nothing is logged; on a rejected
    fetch or a body that is not JSON it shows the fixed failure text of
    the operation and one entry is logged. *)
Theorem write_failure_reported capability email (w : World) el :
  messageDiv (elements w) = Some el ->
  (forall reply,
     let w1 := (AppState.registerConsultant capability email (Responded false (Some reply)) w).2 in
     let w2 := (AppState.unregisterConsultant capability email (Responded false (Some reply)) w).2 in
     let text := match detail reply with
                 | Some (String c rest) => String c rest
                 | _ => "An error occurred"
                 end in
     messageDiv (elements w1) = Some (message_shown text "error")
     /\ messageDiv (elements w2) = Some (message_shown text "error")
     /\ console w1 = console w /\ console w2 = console w)
  /\ (forall net : Http Reply,
        fetch_failure net ->
        let w1 := (AppState.registerConsultant capability email net w).2 in
        let w2 := (AppState.unregisterConsultant capability email net w).2 in
        messageDiv (elements w1) = Some (message_shown register_failed "error")
        /\ messageDiv (elements w2) = Some (message_shown unregister_failed "error")
        /\ length (console w1) = S (length (console w))
        /\ length (console w2) = S (length (console w))).
Proof.
  intros Hel. split.
  - intros reply. simpl.
    rewrite registerConsultant_run, unregisterConsultant_run. simpl.
    assert (Htext : AppState.or_else (detail reply) "An error occurred"
                    = match detail reply with
                      | Some (String c rest) => String c rest
                      | _ => "An error occurred"
                      end).
    { unfold AppState.or_else. by destruct (detail reply) as [[|c rest]|]. }
    rewrite Htext. rewrite !shown_console.
    split; [by apply shown_message_area with (el := el)|].
    split; [by apply shown_message_area with (el := el)|]. done.
  - intros net Hfail. simpl.
    rewrite registerConsultant_run, unregisterConsultant_run.
    destruct Hfail as [-> | [o ->]]; [|destruct o]; simpl; rewrite !shown_console; simpl;
      rewrite !length_app; simpl;
      (split; [by apply shown_message_area with (el := el)|];
       split; [by apply shown_message_area with (el := el)|]; lia).
Qed.

Lemma write_failure_reported_witness :
  messageDiv (elements sample_world) = Some {| textContent := ""; classList := ["hidden"] |}
  /\ (let w1 := (AppState.registerConsultant "Data Migration" "b@x.com"
                   (Responded false (Some {| message := None; detail := Some "Already registered" |}))
                   sample_world).2 in
      messageDiv (elements w1) = Some (message_shown "Already registered" "error")).
Proof.
  split; [reflexivity|].
  destruct (write_failure_reported "Data Migration" "b@x.com" sample_world
              {| textContent := ""; classList := ["hidden"] |} eq_refl) as [H _].
  exact (proj1 (H {| message := None; detail := Some "Already registered" |})).
Defined.

(** *** The store as the writes leave it *)











(** *** Loading *)

Lemma entries_in_cons (h : list cell) name lc (es : list (string * loc)) :
  entries_in h ((name, lc) :: es)
  = match capability_at h lc with
    | Some c => (name, c) :: entries_in h es
    | None => entries_in h es
    end.
Proof. unfold entries_in. simpl. by destruct (capability_at h lc). Qed.

Lemma alloc_entries_spec (data : list (string * Capability)) (h : list cell) :
  exists ext,
    (alloc_entries data h).2 = h ++ ext
    /\ Object_keys (alloc_entries data h).1 = map fst data
    /\ forall ext', entries_in ((alloc_entries data h).2 ++ ext') (alloc_entries data h).1
                    = data.
Proof.
  revert h. induction data as [|[name c] data IH]; intros h.
  - exists []. simpl. by rewrite app_nil_r.
  - destruct (IH (h ++ [CapabilityObj c])) as (ext & Hh & Hk & Hd).
    change (alloc_entries ((name, c) :: data) h)
      with (let '(es, h2) := alloc_entries data (h ++ [CapabilityObj c]) in
            ((name, length h) :: es, h2)).
    destruct (alloc_entries data (h ++ [CapabilityObj c])) as [es h2].
    cbn [fst snd] in *.
    exists (CapabilityObj c :: ext). split; [by rewrite Hh, <- app_assoc|].
    split; [simpl; by rewrite Hk|].
    intros ext'. rewrite entries_in_cons, Hd.
    unfold capability_at. rewrite Hh, <- !app_assoc. simpl.
    by rewrite list_lookup_middle.
Qed.



Lemma Object_entries_in (h : list cell) (l : loc) :
  Object_entries h l = entries_in h (snapshot_at h l).
Proof. done. Qed.

Lemma loaded_snapshot data (w : World) :
  snapshot (loaded data w) = (alloc_entries data (heap w)).1.
Proof.
  unfold snapshot, snapshot_at, loaded. simpl.
  by rewrite list_lookup_middle.
Qed.

Lemma loaded_entries data (w : World) :
  Object_entries (heap (loaded data w)) (capabilities (loaded data w)) = data
  /\ Object_keys (snapshot (loaded data w)) = map fst data.
Proof.
  destruct (alloc_entries_spec data (heap w)) as (ext & Hh & Hk & Hd).
  rewrite Object_entries_in.
  change (snapshot_at (heap (loaded data w)) (capabilities (loaded data w)))
    with (snapshot (loaded data w)).
  rewrite loaded_snapshot. split; [apply Hd | exact Hk].
Qed.

Lemma fetchCapabilities_ok_run o data (w : World) :
  AppState.fetchCapabilities (Responded o (Some data)) w
  = (Normal tt, rendered (loaded data (log_request "GET" "/capabilities" w))).
Proof.
  unfold AppState.fetchCapabilities, try_catch, bind at 1 2 3, fetch, json, ret.
  unfold bind at 1, modify. simpl.
  unfold AppState.store_data, bind, get, modify. simpl.
  unfold loaded. simpl.
  destruct (alloc_entries data (heap w)) as [es h1]. simpl.
  by rewrite render_run.
Qed.

Lemma rendered_list_cards (w : World) :
  rendered_list w = cards_of (Object_entries (heap w) (capabilities w)).
Proof. done. Qed.

Lemma rendered_select_options (w : World) :
  rendered_select w = select_of (Object_keys (snapshot w)).
Proof. done. Qed.

(** X11.  A response to the read request whose body is JSON replaces the
    snapshot, whatever the response's ok flag (the flag is not
    consulted): the new snapshot's entries are exactly the data, in
    order, the objects that existed are untouched, and the list and the
    selector, where bound, show one card and one option per entry. *)
Theorem fetchCapabilities_loads o data (w : World) :
  exists w',
    AppState.fetchCapabilities (Responded o (Some data)) w = (Normal tt, w')
    /\ Object_entries (heap w') (capabilities w') = data
    /\ Object_keys (snapshot w') = map fst data
    /\ (forall l x, heap w !! l = Some x -> heap w' !! l = Some x)
    /\ capabilitiesList (elements w')
       = (fun _ => cards_of data) <$> capabilitiesList (elements w)
    /\ capabilitySelect (elements w')
       = (fun _ => select_of (map fst data)) <$> capabilitySelect (elements w)
    /\ console w' = console w.
Proof.
  eexists. split; [apply fetchCapabilities_ok_run|].
  set (w0 := log_request "GET" "/capabilities" w).
  destruct (loaded_entries data w0) as [He Hk].
  change (heap (rendered ?x)) with (heap x).
  change (capabilities (rendered ?x)) with (capabilities x).
  change (snapshot (rendered ?x)) with (snapshot x).
  split; [exact He|]. split; [exact Hk|].
  split.
  { intros l x Hx. destruct (alloc_entries_spec data (heap w)) as (ext & Hh & _).
    unfold loaded. simpl. rewrite Hh, <- app_assoc. by apply lookup_app_l_Some. }
  simpl. rewrite rendered_list_cards, rendered_select_options, He, Hk. done.
Qed.


Lemma hide_store (w : World) :
  heap (UI.hide w) = heap w /\ capabilities (UI.hide w) = capabilities w.
Proof. unfold UI.hide. by destruct (messageDiv (elements w)). Qed.

Lemma run_until_store (t : N) (w : World) :
  heap (run_until t w) = heap w /\ capabilities (run_until t w) = capabilities w.
Proof.
  unfold run_until.
  change (heap (set_timers ?c ?ts ?x)) with (heap x).
  change (capabilities (set_timers ?c ?ts ?x)) with (capabilities x).
  generalize (filter (fun d => (d <= t)%N) (timers w)). intros due. revert w.
  induction due as [|d due IH]; intros w; simpl; [done|].
  destruct (IH (UI.hide w)) as [-> ->]. apply hide_store.
Qed.




Lemma initial_store_ok : store_ok initial_world.
Proof. split; [constructor | constructor]. Qed.

Lemma select_of_options (names : list string) :
  UI.options (select_of names) = Some (placeholder_option :: map name_option names).
Proof. unfold UI.options. simpl select_innerHTML. by rewrite placeholder_parsed. Qed.

(** X13.  Page load with the form present and a JSON body: the handler
    completes, the snapshot holds the data, the list shows one card per
    entry and the selector the placeholder followed by one option per
    name, the form has the submit listener, and the message area is as
    the page had it, with no timer started. *)
Theorem page_load_shows_data document o data form (w : World) :
  el_register_form document = Some form ->
  exists w',
    on_DOMContentLoaded document (Responded o (Some data)) w = (Normal tt, w')
    /\ Object_entries (heap w') (capabilities w') = data
    /\ capabilitiesList (elements w') = (fun _ => cards_of data) <$> el_capabilities_list document
    /\ capabilitySelect (elements w')
       = (fun _ => select_of (map fst data)) <$> el_capability document
    /\ UI.options (select_of (map fst data))
       = Some (placeholder_option :: map name_option (map fst data))
    /\ messageDiv (elements w') = el_message document
    /\ registerForm (elements w')
       = Some {| form_listeners := form_listeners form ++ [SubmitRegister] |}
    /\ timers w' = timers w.
Proof.
  intros Hform. unfold on_DOMContentLoaded, bind.
  assert (Hinit : UI.init document w
                  = (Normal tt,
                     set_elements
                       {| capabilitiesList := el_capabilities_list document;
                          capabilitySelect := el_capability document;
                          registerForm :=
                            Some {| form_listeners := form_listeners form ++ [SubmitRegister] |};
                          messageDiv := el_message document |} w)).
  { unfold UI.init, bind, modify, get. simpl. by rewrite Hform. }
  rewrite Hinit. unfold AppState.init. rewrite fetchCapabilities_ok_run.
  eexists. split; [reflexivity|].
  match goal with |- context [rendered (loaded data ?x)] => set (w0 := x) end.
  destruct (loaded_entries data w0) as [He Hk].
  change (heap (rendered ?x)) with (heap x).
  change (capabilities (rendered ?x)) with (capabilities x).
  split; [exact He|].
  simpl. rewrite rendered_list_cards, rendered_select_options, He, Hk.
  split; [done|]. split; [done|]. split; [apply select_of_options | done].
Qed.

Lemma page_load_shows_data_witness :
  el_register_form sample_document = Some {| form_listeners := [] |}
  /\ exists w',
       on_DOMContentLoaded sample_document
         (Responded true (Some [("Data Migration", sample_capability)])) initial_world
       = (Normal tt, w')
       /\ Object_entries (heap w') (capabilities w') = [("Data Migration", sample_capability)]
       /\ capabilitySelect (elements w') = Some (select_of ["Data Migration"]).
Proof.
  split; [reflexivity|].
  destruct (page_load_shows_data sample_document true
              [("Data Migration", sample_capability)] {| form_listeners := [] |}
              initial_world eq_refl) as (w' & Hrun & He & _ & Hs & _).
  exists w'. split; [exact Hrun|]. split; [exact He | exact Hs].
Defined.

(** X14.  [render] is idempotent: rendering again what has just been
    rendered changes nothing; rendering never touches the store, the
    message area or the timers. *)
Theorem render_idempotent (w : World) :
  exists w1,
    AppState.render w = (Normal tt, w1)
    /\ AppState.render w1 = (Normal tt, w1)
    /\ heap w1 = heap w /\ capabilities w1 = capabilities w
    /\ messageDiv (elements w1) = messageDiv (elements w)
    /\ timers w1 = timers w.
Proof.
  exists (rendered w). rewrite !render_run. split; [done|]. split; [|done].
  f_equal. unfold rendered. simpl.
  destruct w as [c h [l s f m] co r cl t]. simpl.
  by destruct l, s.
Qed.

(** *** What is shown after a write *)

Lemma entries_in_old (h ext : list cell) (es : list (string * loc)) :
  Forall (fun e : string * loc => is_Some (capability_at h e.2)) es ->
  entries_in (h ++ ext) es = entries_in h es.
Proof.
  induction 1 as [|[k l] es [c Hc] _ IH]; [done|].
  rewrite !entries_in_cons. simpl in Hc.
  by rewrite (capability_at_old h ext l c Hc), Hc, IH.
Qed.

Lemma entries_in_keys (h : list cell) (es : list (string * loc)) (k : string) :
  k ∉ map fst es -> k ∉ map fst (entries_in h es).
Proof.
  induction es as [|[k' l] es IH]; [done|]. intros Hnot.
  change (map fst ((k', l) :: es)) with (k' :: map fst es) in Hnot.
  apply not_elem_of_cons in Hnot as [Hne Hnot].
  rewrite entries_in_cons. destruct (capability_at h l) as [c|]; [|by apply IH].
  change (map fst ((k', c) :: entries_in h es)) with (k' :: map fst (entries_in h es)).
  apply not_elem_of_cons. split; [done | by apply IH].
Qed.

Lemma with_entry_other capability new (l : list (string * Capability)) :
  capability ∉ map fst l -> map (with_entry capability new) l = l.
Proof.
  induction l as [|[k c] l IH]; [done|]. simpl. intros Hnot.
  apply not_elem_of_cons in Hnot as [Hne Hnot].
  rewrite IH by done. unfold with_entry. simpl.
  destruct (String.eqb k capability) eqn:E; [|done].
  apply String.eqb_eq in E. congruence.
Qed.

Lemma entries_in_set (h ext : list cell) (es : list (string * loc))
    capability lc c new l0 :
  NoDup (map fst es) ->
  Forall (fun e : string * loc => is_Some (capability_at h e.2)) es ->
  obj_get capability es = Some lc ->
  capability_at h lc = Some c ->
  capability_at (h ++ ext) l0 = Some (with_consultants c new) ->
  entries_in (h ++ ext) (obj_set capability l0 es)
  = map (with_entry capability new) (entries_in h es).
Proof.
  intros Hdup Hall. revert Hdup.
  induction Hall as [|[k l] es [ck Hck] Hall IH]; intros Hdup Hget Hc Hnew; [done|].
  simpl in Hck, Hget.
  change (map fst ((k, l) :: es)) with (k :: map fst es) in Hdup.
  apply NoDup_cons in Hdup as [Hnot Hdup].
  change (obj_set capability l0 ((k, l) :: es))
    with (if String.eqb k capability then (k, l0) :: es
          else (k, l) :: obj_set capability l0 es).
  destruct (String.eqb k capability) eqn:E.
  - apply String.eqb_eq in E. subst k. injection Hget as ->.
    rewrite !entries_in_cons, Hnew, Hc.
    change (map (with_entry capability new) ((capability, c) :: entries_in h es))
      with (with_entry capability new (capability, c)
              :: map (with_entry capability new) (entries_in h es)).
    unfold with_entry at 1. simpl fst. simpl snd. rewrite String.eqb_refl.
    f_equal. rewrite entries_in_old by done.
    symmetry. apply with_entry_other. by apply entries_in_keys.
  - rewrite !entries_in_cons.
    rewrite (capability_at_old h ext l ck Hck), Hck.
    change (map (with_entry capability new) ((k, ck) :: entries_in h es))
      with (with_entry capability new (k, ck)
              :: map (with_entry capability new) (entries_in h es)).
    unfold with_entry at 1. simpl fst. rewrite E. f_equal. by apply IH.
Qed.

Lemma replaced_entries capability c new (w : World) :
  store_ok w ->
  capability_of w capability = Some c ->
  Object_entries (heap (replaced capability (with_consultants c new) w))
                 (capabilities (replaced capability (with_consultants c new) w))
  = map (with_entry capability new) (Object_entries (heap w) (capabilities w)).
Proof.
  intros [Hdup Hall] Hcap.
  destruct (capability_of_live w capability c Hcap) as (lc & Hlc & Hat).
  rewrite !Object_entries_in.
  change (snapshot_at (heap (replaced ?a ?b ?x)) (capabilities (replaced ?a ?b ?x)))
    with (snapshot (replaced a b x)).
  rewrite replaced_snapshot.
  apply entries_in_set with (lc := lc) (c := c); try done.
  unfold capability_at. rewrite lookup_app_r by lia. by rewrite Nat.sub_diag.
Qed.

(** X8.  After a successful write on a well-formed store the list
    container, if bound, shows the cards of the updated snapshot: the
    target's card is rebuilt from its new consultants, every other card
    from the unchanged capability, in the same order; the selector is
    rebuilt from the same names. *)
Theorem write_rerenders capability email reply (w : World) c old :
  store_ok w ->
  capability_of w capability = Some c ->
  consultants c = Some old ->
  let w1 := (AppState.registerConsultant capability email (Responded true (Some reply)) w).2 in
  let w2 := (AppState.unregisterConsultant capability email (Responded true (Some reply)) w).2 in
  let entries := Object_entries (heap w) (capabilities w) in
  capabilitiesList (elements w1)
  = (fun _ => cards_of (map (with_entry capability (old ++ [email])) entries))
      <$> capabilitiesList (elements w)
  /\ capabilitiesList (elements w2)
     = (fun _ => cards_of (map (with_entry capability (filter (fun x => x <> email) old))
                             entries))
         <$> capabilitiesList (elements w)
  /\ capabilitySelect (elements w1)
     = (fun _ => select_of (Object_keys (snapshot w))) <$> capabilitySelect (elements w)
  /\ capabilitySelect (elements w2)
     = (fun _ => select_of (Object_keys (snapshot w))) <$> capabilitySelect (elements w).
Proof.
  intros Hok Hcap Hold. simpl.
  rewrite registerConsultant_run, unregisterConsultant_run, Hcap, Hold. simpl.
  destruct (capability_of_live w capability c Hcap) as (lc & Hlc & Hat).
  assert (Hkeys : forall new w0, snapshot w0 = snapshot w ->
            Object_keys (snapshot (replaced capability new w0)) = Object_keys (snapshot w)).
  { intros new w0 Hs. rewrite replaced_snapshot, Hs. apply obj_set_keys. by exists lc. }
  assert (Hshown : forall m t x,
            capabilitiesList (elements (shown m t x)) = capabilitiesList (elements x)
            /\ capabilitySelect (elements (shown m t x)) = capabilitySelect (elements x)).
  { intros m t x. unfold shown. by destruct (messageDiv (elements x)). }
  repeat match goal with |- context [elements (shown ?m ?t ?x)] =>
    destruct (Hshown m t x) as [-> ->] end.
  simpl. rewrite !rendered_list_cards, !rendered_select_options.
  rewrite !Hkeys by done.
  rewrite (replaced_entries capability c (old ++ [email])
             (log_request "POST" (register_url capability email) w)) by done.
  rewrite (replaced_entries capability c (filter (fun x => x <> email) old)
             (log_request "DELETE" (unregister_url capability email) w)) by done.
  done.
Qed.

Lemma write_rerenders_witness :
  store_ok sample_world
  /\ capability_of sample_world "Data Migration" = Some sample_capability
  /\ consultants sample_capability = Some ["a@x.com"]
  /\ capabilitiesList
       (elements (AppState.registerConsultant "Data Migration" "b@x.com"
                    (Responded true (Some ok_reply)) sample_world).2)
     = Some (cards_of [("Data Migration",
                        with_consultants sample_capability ["a@x.com"; "b@x.com"])]).
Proof.
  assert (Hok : store_ok sample_world).
  { split; [apply NoDup_singleton | repeat constructor; by eexists]. }
  split; [exact Hok|]. split; [reflexivity|]. split; [reflexivity|].
  exact (proj1 (write_rerenders "Data Migration" "b@x.com" ok_reply sample_world
                  sample_capability ["a@x.com"] Hok eq_refl eq_refl)).
Defined.

(** *** Successive writes *)

Lemma register_ok_capability_of capability email reply (w : World) c old :
  capability_of w capability = Some c ->
  consultants c = Some old ->
  AppState.registerConsultant capability email (Responded true (Some reply)) w
  = (Normal true,
     (AppState.registerConsultant capability email (Responded true (Some reply)) w).2)
  /\ capability_of
       (AppState.registerConsultant capability email (Responded true (Some reply)) w).2
       capability
     = Some (with_consultants c (old ++ [email])).
Proof.
  intros Hcap Hold. rewrite registerConsultant_run, Hcap, Hold. simpl.
  split; [done|]. rewrite shown_capability_of.
  apply (replaced_capability_of capability _ (log_request _ _ w)).
Qed.

Lemma unregister_ok_capability_of capability email reply (w : World) c old :
  capability_of w capability = Some c ->
  consultants c = Some old ->
  capability_of
    (AppState.unregisterConsultant capability email (Responded true (Some reply)) w).2
    capability
  = Some (with_consultants c (filter (fun x => x <> email) old)).
Proof.
  intros Hcap Hold. rewrite unregisterConsultant_run, Hcap, Hold. simpl.
  rewrite shown_capability_of.
  apply (replaced_capability_of capability _ (log_request _ _ w)).
Qed.

(** X9.  Successful registrations accumulate in order of arrival, and
    nothing on the client rejects a duplicate: after two of them the
    consultants are the old sequence followed by both emails, also when
    the two emails are equal. *)
Theorem register_twice_accumulates capability email1 email2 reply1 reply2
    (w : World) c old :
  capability_of w capability = Some c ->
  consultants c = Some old ->
  let r1 := AppState.registerConsultant capability email1 (Responded true (Some reply1)) w in
  let r2 := AppState.registerConsultant capability email2 (Responded true (Some reply2)) r1.2 in
  r1.1 = Normal true /\ r2.1 = Normal true
  /\ consultants_of (heap r2.2) (capabilities r2.2) capability
     = Some (old ++ [email1; email2]).
Proof.
  intros Hcap Hold. simpl.
  destruct (register_ok_capability_of capability email1 reply1 w c old Hcap Hold)
    as [Hr1 Hc1].
  set (w1 := (AppState.registerConsultant capability email1 _ w).2) in *.
  destruct (register_ok_capability_of capability email2 reply2 w1
              (with_consultants c (old ++ [email1])) (old ++ [email1]) Hc1 eq_refl)
    as [Hr2 Hc2].
  split; [by rewrite Hr1|]. split; [by rewrite Hr2|].
  rewrite capability_of_consultants, Hc2. simpl. by rewrite <- app_assoc.
Qed.

Lemma register_twice_accumulates_witness :
  capability_of sample_world "Data Migration" = Some sample_capability
  /\ consultants sample_capability = Some ["a@x.com"]
  /\ (let r1 := AppState.registerConsultant "Data Migration" "b@x.com"
                  (Responded true (Some ok_reply)) sample_world in
      let r2 := AppState.registerConsultant "Data Migration" "b@x.com"
                  (Responded true (Some ok_reply)) r1.2 in
      r1.1 = Normal true /\ r2.1 = Normal true
      /\ consultants_of (heap r2.2) (capabilities r2.2) "Data Migration"
         = Some (["a@x.com"] ++ ["b@x.com"; "b@x.com"])).
Proof.
  split; [reflexivity|]. split; [reflexivity|].
  apply (register_twice_accumulates "Data Migration" "b@x.com" "b@x.com" ok_reply ok_reply
           sample_world sample_capability ["a@x.com"]); reflexivity.
Defined.

Lemma filter_ne_idem (email : string) (l : list string) :
  filter (fun x => x <> email) (filter (fun x => x <> email) l)
  = filter (fun x => x <> email) l.
Proof.
  induction l as [|x l IH]; [done|].
  destruct (decide (x = email)) as [->|Hne].
  - by rewrite filter_cons_False by (by intros H).
  - rewrite (filter_cons_True _ x l) by done.
    rewrite filter_cons_True by done. by rewrite IH.
Qed.

Lemma filter_ne_absent (email : string) (l : list string) :
  email ∉ l -> filter (fun x => x <> email) l = l.
Proof.
  induction l as [|x l IH]; [done|]. intros Hnot.
  apply not_elem_of_cons in Hnot as [Hne Hnot].
  rewrite filter_cons_True by congruence. by rewrite IH.
Qed.

(** X10.  After a successful unregistration the email is no longer among
    the capability's consultants; a second one leaves the same
    sequence; and unregistering an email that was not there leaves the
    sequence as it was, yet still replaces the snapshot object. *)
Theorem unregister_settles capability email reply1 reply2 (w : World) c old :
  capability_of w capability = Some c ->
  consultants c = Some old ->
  let w1 := (AppState.unregisterConsultant capability email
               (Responded true (Some reply1)) w).2 in
  let w2 := (AppState.unregisterConsultant capability email
               (Responded true (Some reply2)) w1).2 in
  (exists new,
     consultants_of (heap w1) (capabilities w1) capability = Some new
     /\ (email ∉ new)
     /\ consultants_of (heap w2) (capabilities w2) capability = Some new
     /\ (email ∉ old -> new = old))
  /\ capabilities w1 <> capabilities w.
Proof.
  intros Hcap Hold. simpl.
  pose proof (unregister_ok_capability_of capability email reply1 w c old Hcap Hold)
    as Hc1.
  set (w1 := (AppState.unregisterConsultant capability email _ w).2) in *.
  pose proof (unregister_ok_capability_of capability email reply2 w1 _ _ Hc1 eq_refl)
    as Hc2.
  split.
  - exists (filter (fun x => x <> email) old).
    rewrite !capability_of_consultants, Hc1, Hc2. simpl.
    split; [done|]. split; [rewrite list_elem_of_filter; tauto|].
    split; [by rewrite filter_ne_idem | apply filter_ne_absent].
  - unfold w1. rewrite unregisterConsultant_run, Hcap, Hold. simpl.
    rewrite shown_capabilities. simpl.
    destruct (capability_of_live w capability c Hcap) as (lc & Hlc & _).
    apply snapshot_live in Hlc. lia.
Qed.

Lemma unregister_settles_witness :
  capability_of sample_world "Data Migration" = Some sample_capability
  /\ consultants sample_capability = Some ["a@x.com"]
  /\ (let w1 := (AppState.unregisterConsultant "Data Migration" "a@x.com"
                   (Responded true (Some ok_reply)) sample_world).2 in
      capabilities w1 <> capabilities sample_world).
Proof.
  split; [reflexivity|]. split; [reflexivity|].
  exact (proj2 (unregister_settles "Data Migration" "a@x.com" ok_reply ok_reply
                  sample_world sample_capability ["a@x.com"] eq_refl eq_refl)).
Defined.

(** *** The hide callback *)

Lemma hidden_el_idem (el : MessageEl) : hidden_el (hidden_el el) = hidden_el el.
Proof.
  unfold hidden_el. simpl. f_equal.
  unfold UI.classList_add at 1.
  by rewrite bool_decide_eq_true_2 by apply classList_add_present.
Qed.

Lemma hide_messageDiv (w : World) :
  messageDiv (elements (UI.hide w)) = hidden_el <$> messageDiv (elements w).
Proof. unfold UI.hide. by destruct (messageDiv (elements w)) eqn:E; simpl; rewrite ?E. Qed.

Lemma hide_fold_messageDiv {A} (due : list A) (w : World) :
  messageDiv (elements (fold_left (fun w _ => UI.hide w) due w))
  = match due with
    | [] => messageDiv (elements w)
    | _ => hidden_el <$> messageDiv (elements w)
    end.
Proof.
  revert w. induction due as [|d due IH]; intros w; [done|].
  simpl. rewrite IH, hide_messageDiv.
  destruct due; [done|]. destruct (messageDiv (elements w)); [|done].
  simpl. by rewrite hidden_el_idem.
Qed.

Lemma run_until_messageDiv (t : N) (w : World) :
  messageDiv (elements (run_until t w))
  = match filter (fun d => (d <= t)%N) (timers w) with
    | [] => messageDiv (elements w)
    | _ => hidden_el <$> messageDiv (elements w)
    end.
Proof.
  unfold run_until.
  change (messageDiv (elements (set_timers ?c ?ts ?x))) with (messageDiv (elements x)).
  apply hide_fold_messageDiv.
Qed.

Lemma run_until_timers (t : N) (w : World) :
  timers (run_until t w) = filter (fun d => ~ (d <= t)%N) (timers w).
Proof. done. Qed.

(** X15.  When a hide timer fires on a visible message, the area keeps
    its text and its classes and gains the class hidden once; timers
    firing later change nothing more, every timer due by then has left
    the queue, and the store is untouched. *)
Theorem fired_timer_keeps_message (t : N) (w : World) (el : MessageEl) (d : N) :
  messageDiv (elements w) = Some el ->
  "hidden" ∉ classList el ->
  d ∈ timers w -> (d <= t)%N ->
  messageDiv (elements (run_until t w))
  = Some {| textContent := textContent el; classList := classList el ++ ["hidden"] |}
  /\ (forall t', messageDiv (elements (run_until t' (run_until t w)))
                 = messageDiv (elements (run_until t w)))
  /\ Forall (fun d' => (t < d')%N) (timers (run_until t w))
  /\ heap (run_until t w) = heap w
  /\ capabilities (run_until t w) = capabilities w.
Proof.
  intros Hel Hvis Hd Hle.
  assert (Hfirst : messageDiv (elements (run_until t w)) = Some (hidden_el el)).
  { rewrite run_until_messageDiv, Hel.
    destruct (filter (fun d0 => (d0 <= t)%N) (timers w)) eqn:E; [|done].
    assert (d ∈ filter (fun d0 => (d0 <= t)%N) (timers w)) as Hin
      by (by apply list_elem_of_filter).
    rewrite E in Hin. by apply elem_of_nil in Hin. }
  split.
  { rewrite Hfirst. unfold hidden_el, UI.classList_add.
    by rewrite bool_decide_eq_false_2. }
  split.
  { intros t'. rewrite (run_until_messageDiv t'), Hfirst.
    destruct (filter _ (timers (run_until t w))); [done|].
    simpl. by rewrite hidden_el_idem. }
  split.
  { rewrite run_until_timers. apply Forall_forall. intros d' Hd'.
    apply list_elem_of_filter in Hd' as [Hd' _]. lia. }
  apply run_until_store.
Qed.

Lemma fired_timer_keeps_message_witness :
  let w := (UI.showMessage (Some "Registered") "success" sample_world).2 in
  messageDiv (elements w) = Some (message_shown "Registered" "success")
  /\ ("hidden" ∉ classList (message_shown "Registered" "success"))
  /\ (5000%N ∈ timers w) /\ (5000 <= 5000)%N
  /\ messageDiv (elements (run_until 5000 w))
     = Some {| textContent := "Registered"; classList := ["success"] ++ ["hidden"] |}.
Proof.
  assert (Hnot : "hidden" ∉ classList (message_shown "Registered" "success")).
  { apply not_elem_of_cons. split; [done | apply not_elem_of_nil]. }
  assert (Hin : 5000%N ∈ timers (UI.showMessage (Some "Registered") "success" sample_world).2).
  { vm_compute. by left. }
  split; [reflexivity|]. split; [exact Hnot|]. split; [exact Hin|]. split; [lia|].
  exact (proj1 (fired_timer_keeps_message 5000
                  (UI.showMessage (Some "Registered") "success" sample_world).2
                  (message_shown "Registered" "success") 5000
                  eq_refl Hnot Hin (N.le_refl 5000))).
Defined.

(** *** The form and the removal controls *)





(** X17.  On markup-free fields every removal control of a card, when
    activated, calls [unregisterConsultant] with the card's capability
    name and the email of the consultant at the control's position;
    there is one control per consultant. *)
Theorem removal_control_unregisters (name : string) (details : Capability) net :
  markup_free name = true ->
  markup_free_capability details = true ->
  exists controls,
    card_delete_btns (UI.createCapabilityCard name details) = Some controls
    /\ length controls = length (default [] (consultants details))
    /\ forall i control,
         controls !! i = Some control ->
         exists email,
           default [] (consultants details) !! i = Some email
           /\ on_click_delete control net
              = Some (AppState.unregisterConsultant name email net).
Proof.
  intros Hname Hdetails.
  exists (map (removal_control name) (default [] (consultants details))).
  split.
  { unfold UI.createCapabilityCard, UI.delete_btns. simpl.
    eapply feed_sound. by apply feed_card_markup. }
  split; [by rewrite length_map|].
  intros i control Hi. rewrite list_lookup_fmap in Hi.
  destruct (default [] (consultants details) !! i) as [email|]; [|done].
  simpl in Hi. injection Hi as <-. by exists email.
Qed.

Lemma removal_control_unregisters_witness :
  markup_free "Data Migration" = true
  /\ markup_free_capability sample_capability = true
  /\ exists controls,
       card_delete_btns (UI.createCapabilityCard "Data Migration" sample_capability)
       = Some controls
       /\ length controls = 1.
Proof.
  split; [reflexivity|]. split; [reflexivity|].
  destruct (removal_control_unregisters "Data Migration" sample_capability
              (Responded true (Some ok_reply)) eq_refl eq_refl)
    as (controls & Hc & Hlen & _).
  by exists controls.
Defined.

(** *** Request lines *)

Lemma hex_digit_unhex (c : ascii) :
  ascii_of_N (unhex (hex_digit (N_of_ascii c / 16)) * 16
              + unhex (hex_digit (N_of_ascii c mod 16))) = c.
Proof. destruct c as [[] [] [] [] [] [] [] []]; by vm_compute. Qed.

Lemma encoded_char_alphabet (c : ascii) :
  is_unreserved c = false ->
  is_uri_char (hex_digit (N_of_ascii c / 16)) = true
  /\ is_uri_char (hex_digit (N_of_ascii c mod 16)) = true.
Proof. destruct c as [[] [] [] [] [] [] [] []]; by vm_compute. Qed.

Lemma encodeURIComponent_alphabet (s : string) :
  string_forall is_uri_char (encodeURIComponent s) = true
  /\ string_forall
       (fun c => negb (bool_decide (c ∈ ["/"; "?"; "#"; "&"; "="; " "; "+"]%char)))
       (encodeURIComponent s) = true.
Proof.
  assert (Hweak : forall c, is_uri_char c = true ->
            negb (bool_decide (c ∈ ["/"; "?"; "#"; "&"; "="; " "; "+"]%char)) = true).
  { intros c. destruct c as [[] [] [] [] [] [] [] []]; by vm_compute. }
  induction s as [|c s [IH1 IH2]]; [done|]. simpl.
  destruct (is_unreserved c) eqn:E.
  - change (String c "" +:+ encodeURIComponent s) with (String c (encodeURIComponent s)).
    simpl. rewrite IH1, IH2, Hweak; unfold is_uri_char; by rewrite E.
  - destruct (encoded_char_alphabet c E) as [Hh Hl].
    change (String "%" (String ?h (String ?l "")) +:+ encodeURIComponent s)
      with (String "%" (String h (String l (encodeURIComponent s)))).
    simpl. rewrite IH1, IH2, Hh, Hl, !Hweak; done.
Qed.

Lemma encodeURIComponent_injective (s1 s2 : string) :
  encodeURIComponent s1 = encodeURIComponent s2 -> s1 = s2.
Proof.
  revert s2. induction s1 as [|c1 s1 IH]; intros [|c2 s2]; simpl.
  - done.
  - destruct (is_unreserved c2); done.
  - destruct (is_unreserved c1); done.
  - destruct (is_unreserved c1) eqn:E1, (is_unreserved c2) eqn:E2.
    + change (String c1 (encodeURIComponent s1) = String c2 (encodeURIComponent s2)
              -> String c1 s1 = String c2 s2).
      intros [= -> H]. by rewrite (IH s2 H).
    + change (String c1 (encodeURIComponent s1)
              = String "%" (String (hex_digit (N_of_ascii c2 / 16))
                              (String (hex_digit (N_of_ascii c2 mod 16))
                                 (encodeURIComponent s2)))
              -> String c1 s1 = String c2 s2).
      intros [= -> _]. done.
    + change (String "%" (String (hex_digit (N_of_ascii c1 / 16))
                            (String (hex_digit (N_of_ascii c1 mod 16))
                               (encodeURIComponent s1)))
              = String c2 (encodeURIComponent s2)
              -> String c1 s1 = String c2 s2).
      intros [= <- _]. done.
    + change (String "%" (String (hex_digit (N_of_ascii c1 / 16))
                            (String (hex_digit (N_of_ascii c1 mod 16))
                               (encodeURIComponent s1)))
              = String "%" (String (hex_digit (N_of_ascii c2 / 16))
                              (String (hex_digit (N_of_ascii c2 mod 16))
                                 (encodeURIComponent s2)))
              -> String c1 s1 = String c2 s2).
      intros [= Hh Hl H].
      rewrite <- (hex_digit_unhex c1), <- (hex_digit_unhex c2), Hh, Hl.
      by rewrite (IH s2 H).
Qed.

(** *** What the user is told *)

(** X7.  After a successful write, with the message area bound, the
    area shows the reply's [message] (empty when the reply has none)
    with the class success, visible, one hide timer is added 5000 ms
    ahead, and nothing is logged. *)
Theorem write_success_reported capability email reply (w : World) c old el :
  capability_of w capability = Some c ->
  consultants c = Some old ->
  messageDiv (elements w) = Some el ->
  let w1 := (AppState.registerConsultant capability email (Responded true (Some reply)) w).2 in
  let w2 := (AppState.unregisterConsultant capability email (Responded true (Some reply)) w).2 in
  messageDiv (elements w1) = Some (message_shown (default "" (message reply)) "success")
  /\ messageDiv (elements w2) = Some (message_shown (default "" (message reply)) "success")
  /\ UI.visible w1 = true /\ UI.visible w2 = true
  /\ timers w1 = timers w ++ [(clock w + 5000)%N]
  /\ timers w2 = timers w ++ [(clock w + 5000)%N]
  /\ console w1 = console w /\ console w2 = console w.
Proof.
  intros Hcap Hold Hel. simpl.
  rewrite registerConsultant_run, unregisterConsultant_run, Hcap, Hold. simpl.
  rewrite !shown_console, !shown_messageDiv. simpl. rewrite Hel. simpl.
  split; [done|]. split; [done|].
  split; [apply shown_visible; simpl; by rewrite Hel|].
  split; [apply shown_visible; simpl; by rewrite Hel|].
  split; [|split; [|done]].
  - match goal with |- timers (shown ?m ?t ?x) = _ =>
      destruct (shown_timers m t x) as [-> _]; [simpl; by rewrite Hel | done] end.
  - match goal with |- timers (shown ?m ?t ?x) = _ =>
      destruct (shown_timers m t x) as [-> _]; [simpl; by rewrite Hel | done] end.
Qed.

Lemma write_success_reported_witness :
  capability_of sample_world "Data Migration" = Some sample_capability
  /\ consultants sample_capability = Some ["a@x.com"]
  /\ messageDiv (elements sample_world) = Some {| textContent := ""; classList := ["hidden"] |}
  /\ messageDiv
       (elements (AppState.registerConsultant "Data Migration" "b@x.com"
                    (Responded true (Some ok_reply)) sample_world).2)
     = Some (message_shown "Registered" "success").
Proof.
  split; [reflexivity|]. split; [reflexivity|]. split; [reflexivity|].
  exact (proj1 (write_success_reported "Data Migration" "b@x.com" ok_reply sample_world
                  sample_capability ["a@x.com"]
                  {| textContent := ""; classList := ["hidden"] |}
                  eq_refl eq_refl eq_refl)).
Defined.

(** X12.  A failed load changes nothing but the list container and the
    log: the selector keeps the options of the last snapshot, the
    message area and the form are untouched, no timer is started and the
    snapshot's entries are the ones it had. *)
Theorem fetchCapabilities_failure_quiet net (w : World) :
  fetch_failure net ->
  let w' := (AppState.fetchCapabilities net w).2 in
  capabilitySelect (elements w') = capabilitySelect (elements w)
  /\ messageDiv (elements w') = messageDiv (elements w)
  /\ registerForm (elements w') = registerForm (elements w)
  /\ timers w' = timers w
  /\ Object_entries (heap w') (capabilities w') = Object_entries (heap w) (capabilities w).
Proof.
  intros Hfail. simpl.
  destruct (fetchCapabilities_failure_run net w Hfail) as [e ->]. done.
Qed.

Lemma fetchCapabilities_failure_quiet_witness :
  fetch_failure (@Rejected (list (string * Capability)))
  /\ timers (AppState.fetchCapabilities Rejected sample_world).2 = timers sample_world.
Proof.
  split; [by left|].
  destruct (fetchCapabilities_failure_quiet Rejected sample_world) as (_ & _ & _ & H & _);
    [by left | exact H].
Defined.

Lemma append_cancel_l (p x y : string) : p +:+ x = p +:+ y -> x = y.
Proof.
  induction p as [|c p IH]; [done|].
  change (String c (p +:+ x) = String c (p +:+ y) -> x = y).
  intros [= H]. by apply IH.
Qed.

Lemma split_at_slash (a1 a2 r1 r2 : string) :
  string_forall (fun c => negb (c =? "/")%char) a1 = true ->
  string_forall (fun c => negb (c =? "/")%char) a2 = true ->
  a1 +:+ String "/" r1 = a2 +:+ String "/" r2 ->
  a1 = a2 /\ r1 = r2.
Proof.
  revert a2. induction a1 as [|c1 a1 IH]; intros [|c2 a2] H1 H2.
  - change (String "/" r1 = String "/" r2 -> "" = "" /\ r1 = r2). by intros [= ->].
  - change (String "/" r1 = String c2 (a2 +:+ String "/" r2) -> "" = String c2 a2 /\ r1 = r2).
    intros [= <- _]. done.
  - change (String c1 (a1 +:+ String "/" r1) = String "/" r2 -> String c1 a1 = "" /\ r1 = r2).
    intros [= -> _]. done.
  - change (String c1 (a1 +:+ String "/" r1) = String c2 (a2 +:+ String "/" r2)
            -> String c1 a1 = String c2 a2 /\ r1 = r2).
    simpl in H1, H2. apply andb_true_iff in H1 as [_ H1]. apply andb_true_iff in H2 as [_ H2].
    intros [= -> H]. destruct (IH a2 H1 H2 H) as [-> ->]. done.
Qed.

Lemma encoded_no_slash (s : string) :
  string_forall (fun c => negb (c =? "/")%char) (encodeURIComponent s) = true.
Proof.
  destruct (encodeURIComponent_alphabet s) as [H _]. revert H.
  generalize (encodeURIComponent s). intros e.
  induction e as [|c e IH]; [done|]. simpl.
  intros [Hc He]%andb_true_iff. rewrite (IH He), andb_true_r.
  revert Hc. destruct c as [[] [] [] [] [] [] [] []]; by vm_compute.
Qed.

(** X21.  A request line names one capability and one email: two
    register URLs, or two unregister URLs, are equal only for the same
    capability and the same email, whatever characters they contain. *)
Theorem request_names_the_pair (capability1 email1 capability2 email2 : string) :
  (register_url capability1 email1 = register_url capability2 email2 ->
   capability1 = capability2 /\ email1 = email2)
  /\ (unregister_url capability1 email1 = unregister_url capability2 email2 ->
      capability1 = capability2 /\ email1 = email2).
Proof.
  split; unfold register_url, unregister_url; intros H;
    apply append_cancel_l in H;
    apply (split_at_slash _ _ _ _ (encoded_no_slash capability1)
             (encoded_no_slash capability2)) in H as [Hc He];
    [apply (append_cancel_l "register?email=") in He
    |apply (append_cancel_l "unregister?email=") in He];
    split; by apply encodeURIComponent_injective.
Qed.

(** *** Cards and anchors: instances

    [card_controls_markup_free] (X18) and [UI_init_binds] (X19) at the
    sample page. *)

Lemma card_controls_markup_free_witness :
  markup_free "Data Migration" = true
  /\ markup_free_capability sample_capability = true
  /\ card_delete_btns (UI.createCapabilityCard "Data Migration" sample_capability)
     = Some [removal_control "Data Migration" "a@x.com"].
Proof.
  split; [reflexivity|]. split; [reflexivity|].
  apply (card_controls_markup_free "Data Migration" sample_capability); reflexivity.
Defined.

Lemma UI_init_binds_witness :
  el_register_form sample_document = Some {| form_listeners := [] |}
  /\ exists w',
       UI.init sample_document initial_world = (Normal tt, w')
       /\ capabilitiesList (elements w') = el_capabilities_list sample_document
       /\ capabilitySelect (elements w') = el_capability sample_document
       /\ messageDiv (elements w') = el_message sample_document
       /\ registerForm (elements w')
          = Some {| form_listeners := form_listeners {| form_listeners := [] |}
                                        ++ [SubmitRegister] |}.
Proof.
  split; [reflexivity|].
  apply (UI_init_binds sample_document initial_world {| form_listeners := [] |}).
  reflexivity.
Defined.
